(** * LangueDeChat: dialogue-management core, embedded in Rocq

    A shallow embedding of the Python modules under [lib/]:
    [config.py], [match.py], [KBManager.py], [StateTracker.py],
    [RBAgent.py], [RLAgent.py], [DialogueManager.py] and
    [UserSimulator.py], followed by the properties proved about them.

    Conventions of the embedding.
    - A Python [dict] with string keys is a [gmap string _]; a [set] of
      keys is a [gset string]; a [list] is a [list].
    - A value stored in a document, an inform or a constraint is a Python
      [int] or a Python [str] (the only types the JSON data files of the
      repository contain): type [value].
    - A Python [str] is an element of [string].  The operations of the
      standard library that [match.py] applies to strings ([str.isdigit],
      [int], [re.sub], [str.lower], [str.split], [str.find]) are decided
      by the interpreter (its Unicode character database, its limit on
      the number of digits of an [int]) and not by the repository: they
      are the parameter [PyStrOps] of the embedding, and every theorem
      holds for all of them.
    - An exception is an element of [exn]; code that can raise returns a
      [result].
    - The module [random] is an oracle [rho : nat -> nat]: every call site
      of [random.random] or [random.choice] inside one method reads its own
      cell, so that all outcomes of all draws are covered by quantifying
      over [rho]. *)

From Stdlib Require Import ZArith Ascii String List Bool Lia DecimalString.
From Stdlib Require Import SpecFloat.
From stdpp Require Import gmap strings list fin_maps.

Set Default Proof Using "Type".
Local Open Scope Z_scope.

(* ===================================================================== *)
(** * Exceptions and results *)
(* ===================================================================== *)

(** The exceptions the modelled code can raise.  [MatchError] stands for
    whatever [match.py] raises on a value it cannot read ([ValueError]
    from [int], in [_preprocess] or in a range comparison;
    [AttributeError] from [split] or [find] on an [int]);
    [UnpackError] is the [ValueError] of a tuple or list unpacking whose
    right-hand side has the wrong length; the others carry the name of the
    Python exception. *)
Inductive exn : Type :=
  | MatchError
  | UnpackError
  | ValueError
  | TypeError
  | KeyError
  | ZeroDivisionError
  | OverflowError
  | IndexError.

Inductive result (A : Type) : Type :=
  | Ok (a : A)
  | Raise (e : exn).
Arguments Ok {A} a.
Arguments Raise {A} e.

Global Instance exn_eq_dec : EqDecision exn.
Proof. solve_decision. Defined.

Global Instance result_ret : MRet result := fun A a => Ok a.
Global Instance result_bind : MBind result := fun A B f r =>
  match r with
  | Ok a => f a
  | Raise e => Raise e
  end.
Global Instance result_fmap : FMap result := fun A B f r =>
  match r with
  | Ok a => Ok (f a)
  | Raise e => Raise e
  end.

Definition is_Ok {A} (r : result A) : Prop := exists a, r = Ok a.

(** [for x in l: f x], collecting the results; the first exception stops
    the loop. *)
Fixpoint mapR {A B} (f : A -> result B) (l : list A) : result (list B) :=
  match l with
  | [] => Ok []
  | x :: l' => y ← f x; ys ← mapR f l'; Ok (y :: ys)
  end.

(* ===================================================================== *)
(** * config.py *)
(* ===================================================================== *)

Definition INF : string := "INFORM".
Definition REQ : string := "REQUEST".
Definition GOAL_KEY : string := "doi".

Definition AGT_INF_KEYS : list string :=
  [ "authors"; "document_title"; "publication_title"; "content_type";
    "publisher"; "open_access"; "publication_year"; "abstract";
    "num_citations"; GOAL_KEY ].

Definition USR_INF_NUM_KEYS : list string :=
  [ "publication_year"; "min_publication_year"; "max_publication_year";
    "min_num_citations" ].

Definition USR_INF_STR_KEYS : list string :=
  [ "authors"; "document_title"; "publication_title"; "publisher";
    "keywords" ].

Definition USR_INF_ENUM_KEYS : list (string * list string) :=
  [ ("open_access", ["Yes"; "No"]);
    ("content_type", ["Conferences"; "Journals"; "Books"]) ].

Definition USR_INF_KEYS : list string :=
  USR_INF_NUM_KEYS ++ USR_INF_STR_KEYS ++ map fst USR_INF_ENUM_KEYS.
Definition AGT_REQ_KEYS : list string := USR_INF_KEYS.
Definition USR_REQ_KEYS : list string := AGT_INF_KEYS.

Definition OWT : string := "ANYTHING".
Definition MA : string := "MATCHING ALL".

Definition USRSIM_INIT_INF : list string := [].
Definition USRSIM_REQ_ONLY_AFTER_AGT_INF : list string :=
  [ "open_access"; "publication_year"; "num_citations"; "content_type" ].

Definition THX : string := "THANKS".
Definition RJCT : string := "REJECT".
Definition USR_SPEC_ACTS : list string := [THX; RJCT].
Definition NMA : string := "NO MATCH AVAILABLE".
Definition WCP : string := "WITHDRAW CURRENT PROPOSALS".
Definition AGT_SPEC_ACTS : list string := [NMA; WCP].

(** The intent of an agent act, [INF] or [REQ]. *)
Inductive intent : Type := Inform | Request.

Global Instance intent_eq_dec : EqDecision intent.
Proof. solve_decision. Defined.

Definition AGT_ACTS : list (intent * string) :=
  map (fun key => (Inform, key)) AGT_INF_KEYS
  ++ map (fun key => (Request, key)) AGT_REQ_KEYS.

(* ===================================================================== *)
(** * Values and Python's operations on strings *)
(* ===================================================================== *)

Inductive value : Type :=
  | VInt (n : Z)
  | VStr (s : string).

Global Instance value_eq_dec : EqDecision value.
Proof. solve_decision. Defined.

Global Instance value_countable : Countable value.
Proof.
  refine (inj_countable'
    (fun v => match v with VInt n => inl n | VStr s => inr s end)
    (fun x => match x with inl n => VInt n | inr s => VStr s end) _).
  by intros [].
Defined.

Global Instance value_inhabited : Inhabited value := populate (VInt 0).

(** The operations of Python's standard library that [match.py] applies
    to a [str]:
    - [str_isdigit s] is [s.isdigit()];
    - [str_int s] is [int(s)], [None] standing for [ValueError] (Python
      raises it on a string that is not a decimal literal, which a string
      accepted by [isdigit] can be, and on a literal with more digits than
      the interpreter's limit);
    - [re_sub_punct s] is [re.sub(r'[^\w\s]', '', s)];
    - [str_lower s] is [s.lower()];
    - [str_split s] is [s.split()];
    - [str_find s sub] is [s.find(sub)]. *)
Class PyStrOps : Type := {
  str_isdigit : string -> bool;
  str_int : string -> option Z;
  re_sub_punct : string -> string;
  str_lower : string -> string;
  str_split : string -> list string;
  str_find : string -> string -> Z
}.

(** The six operations on ASCII text, as CPython 3.11 computes them
    there: the instance [ascii_ops] built from them evaluates the
    examples of this file, whose strings are all ASCII.  Outside ASCII
    the module does not follow Python; no theorem depends on it. *)
Module AsciiStr.

Definition code (c : ascii) : N := N_of_ascii c.

Definition is_digit (c : ascii) : bool :=
  ((48 <=? code c) && (code c <=? 57))%N.

Definition is_upper (c : ascii) : bool :=
  ((65 <=? code c) && (code c <=? 90))%N.

Definition is_lower (c : ascii) : bool :=
  ((97 <=? code c) && (code c <=? 122))%N.

(** [\w] of [re] among the ASCII characters: letters, digits and the
    underscore. *)
Definition is_word (c : ascii) : bool :=
  is_digit c || is_upper c || is_lower c || (code c =? 95)%N.

(** [\s] of [re] and the separators of [str.split()] among the ASCII
    characters. *)
Definition is_space (c : ascii) : bool :=
  (((9 <=? code c) && (code c <=? 13))
   || ((28 <=? code c) && (code c <=? 32)))%N.

Definition lower_char (c : ascii) : ascii :=
  if is_upper c then ascii_of_N (code c + 32) else c.

Definition chars (s : string) : list ascii := list_ascii_of_string s.
Definition of_chars (l : list ascii) : string := string_of_list_ascii l.

(** [s.isdigit()] for an ASCII [s]: not empty, decimal digits only. *)
Definition isdigit (s : string) : bool :=
  match chars s with
  | [] => false
  | cs => forallb is_digit cs
  end.

(** [re.sub(r'[^\w\s]', '', s)] for an ASCII [s] *)
Definition sub_punct (s : string) : string :=
  of_chars (List.filter (fun c => is_word c || is_space c) (chars s)).

(** [s.lower()] for an ASCII [s] *)
Definition lower (s : string) : string :=
  of_chars (map lower_char (chars s)).

Definition strip_punct_lower (s : string) : string := lower (sub_punct s).

(** [s.split()] for an ASCII [s]: the maximal runs of non-space
    characters. *)
Fixpoint split_go (cur : list ascii) (cs : list ascii) : list string :=
  match cs with
  | [] => match cur with [] => [] | _ => [of_chars (rev cur)] end
  | c :: cs' =>
      if is_space c
      then match cur with
           | [] => split_go [] cs'
           | _ => of_chars (rev cur) :: split_go [] cs'
           end
      else split_go (c :: cur) cs'
  end.
Definition split (s : string) : list string := split_go [] (chars s).

Fixpoint is_prefix (p l : list ascii) : bool :=
  match p, l with
  | [], _ => true
  | _ :: _, [] => false
  | a :: p', b :: l' => bool_decide (a = b) && is_prefix p' l'
  end.

Fixpoint find_go (w l : list ascii) (i : Z) : Z :=
  if is_prefix w l then i
  else match l with
       | [] => -1
       | _ :: l' => find_go w l' (i + 1)
       end.

(** [hay.find(word)]: the lowest index at which [word] occurs, or -1. *)
Definition find (hay word : string) : Z :=
  find_go (chars word) (chars hay) 0.

Definition digit_val (c : ascii) : Z := Z.of_N (code c) - 48.

(** The digits of a decimal literal, most significant first; a single
    underscore is allowed between two digits. *)
Fixpoint digits_go (acc : Z) (prev_digit : bool) (cs : list ascii)
  : option Z :=
  match cs with
  | [] => if prev_digit then Some acc else None
  | c :: cs' =>
      if is_digit c then digits_go (10 * acc + digit_val c) true cs'
      else if bool_decide (c = "_"%char) && prev_digit
           then digits_go acc false cs'
           else None
  end.

Fixpoint lstrip (cs : list ascii) : list ascii :=
  match cs with
  | c :: cs' => if is_space c then lstrip cs' else cs
  | [] => []
  end.

Definition strip (cs : list ascii) : list ascii :=
  rev (lstrip (rev (lstrip cs))).

(** The default limit on the number of digits [int] converts. *)
Definition int_max_str_digits : nat := 4300.

(** [int(s)] for an ASCII [s]: surrounding white space is ignored, an
    optional sign may precede the digits; [None] is [ValueError], also
    raised on more than [int_max_str_digits] digits. *)
Definition int_of_str (s : string) : option Z :=
  if bool_decide (int_max_str_digits
                  < length (List.filter is_digit (chars s)))%nat
  then None
  else
    match strip (chars s) with
    | "-"%char :: cs => Z.opp <$> digits_go 0 false cs
    | "+"%char :: cs => digits_go 0 false cs
    | cs => digits_go 0 false cs
    end.

End AsciiStr.

Example strip_ex :
  AsciiStr.strip_punct_lower "Alice Smith, B.-C. D'Or_9" = "alice smith bc dor_9".
Proof. by vm_compute. Qed.
Example int_ex : AsciiStr.int_of_str " 1_000 " = Some 1000
  /\ AsciiStr.int_of_str "abc" = None /\ AsciiStr.int_of_str "-12" = Some (-12)
  /\ AsciiStr.int_of_str "1__0" = None /\ AsciiStr.int_of_str "" = None.
Proof. by vm_compute. Qed.
Example find_ex : AsciiStr.find "deep learning" "learn" = 5
  /\ AsciiStr.find "deep learning" "lean" = -1 /\ AsciiStr.find "abc" "" = 0.
Proof. by vm_compute. Qed.

(* ===================================================================== *)
(** * match.py *)
(* ===================================================================== *)

Section match_py.
Context `{ops : PyStrOps}.

(** [int(x)] as the comparison lambdas apply it to a preprocessed value. *)
Definition py_int (x : value) : result Z :=
  match x with
  | VInt n => Ok n
  | VStr s =>
      match str_int s with
      | Some n => Ok n
      | None => Raise MatchError
      end
  end.

Definition cmp_fun : Type := value -> value -> result bool.

Definition int_ge : cmp_fun := fun a b =>
  x ← py_int a; y ← py_int b; Ok (bool_decide (x >= y)).
Definition int_le : cmp_fun := fun a b =>
  x ← py_int a; y ← py_int b; Ok (bool_decide (x <= y)).

Definition CONSTRAINING_KEYS_MAPS : list (string * (string * cmp_fun)) :=
  [ ("min_num_citations", ("num_citations", int_ge));
    ("min_publication_year", ("publication_year", int_ge));
    ("max_publication_year", ("publication_year", int_le)) ].

(** [d[k].append(x)] on a [defaultdict(list)] kept as an association
    list in insertion order. *)
Fixpoint append_at {A} (k : string) (x : A) (d : list (string * list A))
  : list (string * list A) :=
  match d with
  | [] => [(k, [x])]
  | (k', xs) :: d' =>
      if bool_decide (k' = k) then (k', xs ++ [x]) :: d'
      else (k', xs) :: append_at k x d'
  end.

Definition CONSTRAINED_KEYS_MAPS : list (string * list (string * cmp_fun)) :=
  fold_left
    (fun acc '(constraining_key, (constrained_key, f)) =>
       append_at constrained_key (constraining_key, f) acc)
    CONSTRAINING_KEYS_MAPS [].

(** [k in d] and [d[k]] for the two tables. *)
Fixpoint assoc {A} (k : string) (d : list (string * A)) : option A :=
  match d with
  | [] => None
  | (k', x) :: d' => if bool_decide (k' = k) then Some x else assoc k d'
  end.

Definition _find_words (context : gmap string value) (key : string)
    (v : value) : result bool :=
  match context !! key with
  | None => Ok true
  | Some target =>
      match v with
      | VInt _ => Raise MatchError
      | VStr s =>
          match str_split s with
          | [] => Ok true
          | words =>
              match target with
              | VInt _ => Raise MatchError
              | VStr t =>
                  Ok (forallb
                        (fun word => negb (bool_decide (str_find t word = -1)))
                        words)
              end
          end
      end
  end.

Definition _match_lambda (key : string) (context : gmap string value)
    (f : cmp_fun) (v : value) : result bool :=
  match context !! key with
  | None => Ok true
  | Some x => f x v
  end.

Definition _match_authors (context : gmap string value) (authors : value) :=
  _find_words context "authors" authors.
Definition _match_document_title (context : gmap string value) (t : value) :=
  _find_words context "document_title" t.
Definition _match_publication_title (context : gmap string value)
    (t : value) :=
  _find_words context "publication_title" t.
Definition _match_publisher (context : gmap string value) (p : value) :=
  _find_words context "publisher" p.

(** [a or b]: [b] is evaluated only when [a] is false. *)
Definition or_else (a : result bool) (b : result bool) : result bool :=
  x ← a; if x : bool then Ok true else b.

Definition _match_keywords (context : gmap string value) (keywords : value)
  : result bool :=
  or_else (_find_words context "abstract" keywords)
    (or_else (_find_words context "document_title" keywords)
       (_find_words context "publication_title" keywords)).

Definition special_constraints
  : list (string * (gmap string value -> value -> result bool)) :=
  [ ("authors", _match_authors);
    ("document_title", _match_document_title);
    ("publication_title", _match_publication_title);
    ("publisher", _match_publisher);
    ("keywords", _match_keywords) ].

(** The value [_preprocess] stores for [v]: [v if isinstance(v, int)
    else int(v) if v.isdigit() else re.sub(r'[^\w\s]', '', v).lower()];
    [int(v)] can raise. *)
Definition preprocess_value (v : value) : result value :=
  match v with
  | VInt n => Ok (VInt n)
  | VStr s =>
      if str_isdigit s
      then match str_int s with
           | Some n => Ok (VInt n)
           | None => Raise MatchError
           end
      else Ok (VStr (str_lower (re_sub_punct s)))
  end.

(** The dict comprehension: the entries whose value is not [OWT], each
    with its value preprocessed; the first value that cannot be
    preprocessed raises. *)
Definition _preprocess (d : gmap string value)
  : result (gmap string value) :=
  list_to_map <$>
    mapR (fun '(k, v) => pair k <$> preprocess_value v)
         (map_to_list (filter (fun kv => kv.2 <> VStr OWT) d)).

Definition py_eq : cmp_fun := fun x y => Ok (bool_decide (x = y)).

(** [{k} if not b else set()] *)
Definition conflict_if_not (k : string) (b : bool) : gset string :=
  if b then ∅ else {[ k ]}.

(** One iteration of the loop of [get_conflict_keys]: the keys the pair
    [(inf_key, inf_value)] adds to [conflicting_keys]. *)
Definition conflicts_of_item (context : gmap string value)
    (item : string * value) : result (gset string) :=
  let '(inf_key, inf_value) := item in
  s1 ← match assoc inf_key CONSTRAINING_KEYS_MAPS with
       | Some (constrained_key, f) =>
           conflict_if_not constrained_key
             <$> _match_lambda constrained_key context f inf_value
       | None => Ok ∅
       end;
  s2 ← match assoc inf_key CONSTRAINED_KEYS_MAPS with
       | Some l =>
           union_list <$>
             mapR (fun '(constraining_key, f) =>
                     conflict_if_not constraining_key
                       <$> _match_lambda constraining_key context
                             (fun x y => f y x) inf_value) l
       | None => Ok ∅
       end;
  s3 ← match assoc inf_key special_constraints with
       | Some m => conflict_if_not inf_key <$> m context inf_value
       | None =>
           conflict_if_not inf_key
             <$> _match_lambda inf_key context py_eq inf_value
       end;
  Ok (s1 ∪ s2 ∪ s3).

Definition get_conflict_keys (inform context : gmap string value)
  : result (gset string) :=
  inform ← _preprocess inform;
  context ← _preprocess context;
  union_list <$> mapR (conflicts_of_item context) (map_to_list inform).

End match_py.

(* ===================================================================== *)
(** * Stateful code: a state monad over [result] *)
(* ===================================================================== *)

(** A method of an object with state [S]: it reads the state and either
    raises or returns a value and the new state. *)
Definition St (S A : Type) : Type := S -> result (A * S).

Global Instance St_ret {S} : MRet (St S) := fun A a s => Ok (a, s).
Global Instance St_bind {S} : MBind (St S) := fun A B f c s =>
  match c s with
  | Ok (a, s') => f a s'
  | Raise e => Raise e
  end.

Definition get {S} : St S S := fun s => Ok (s, s).
Definition put {S} (s : S) : St S unit := fun _ => Ok (tt, s).
Definition modify {S} (f : S -> S) : St S unit := fun s => Ok (tt, f s).
Definition lift {S A} (r : result A) : St S A := fun s =>
  match r with
  | Ok a => Ok (a, s)
  | Raise e => Raise e
  end.
Definition raise {S A} (e : exn) : St S A := fun _ => Raise e.

(** The draws of [random]: [rho] is the oracle, [i] names the call
    site. *)
Definition rng : Type := nat -> nat.

(** [random.random() < num / den] *)
Definition random_lt (rho : rng) (i : nat) (num den : nat) : bool :=
  bool_decide (rho i `mod` den < num)%nat.

(** [random.choice(l)] *)
Definition choice {A} (rho : rng) (i : nat) (l : list A) : result A :=
  match l !! (rho i `mod` length l)%nat with
  | Some x => Ok x
  | None => Raise IndexError
  end.

(** [str(x)] *)
Definition py_str (x : value) : string :=
  match x with
  | VInt n => NilZero.string_of_int (Z.to_int n)
  | VStr s => s
  end.

(** [doc[key]] *)
Definition getitem {A} (d : gmap string A) (key : string) : result A :=
  match d !! key with
  | Some x => Ok x
  | None => Raise KeyError
  end.

(* ===================================================================== *)
(** * KBManager.py *)
(* ===================================================================== *)

(** A [dict] whose keys are hashable objects compared with [==] (the
    caches of [KBManager], keyed by frozensets): an association list, the
    latest binding of a key first. *)
Module PyDict.

Definition t (K V : Type) : Type := list (K * V).

Definition empty {K V} : t K V := [].

Fixpoint get `{EqDecision K} {V} (d : t K V) (k : K) : option V :=
  match d with
  | [] => None
  | (k', v) :: d' => if decide (k' = k) then Some v else get d' k
  end.

Definition set {K V} (k : K) (v : V) (d : t K V) : t K V := (k, v) :: d.

End PyDict.
Global Arguments PyDict.get : simpl never.
Global Arguments PyDict.set : simpl never.

Module KBManager.
Section KBManager.
Context `{ops : PyStrOps}.

Record kb_cache : Type := {
  cache_documents : PyDict.t (gmap string value) (list (gmap string value));
  cache_values : PyDict.t (string * gmap string value) (list string);
  cache_count : PyDict.t (gmap string value) (gmap string nat)
}.

(** The attributes [_kb] and [_cache] of a [KBManager]. *)
Record t : Type := {
  _kb : list (gmap string value);
  _cache : kb_cache
}.

(** [KBManager(kb_filepath)] once the file has been read into [kb]. *)
Definition init (kb : list (gmap string value)) : t :=
  {| _kb := kb;
     _cache := {| cache_documents := PyDict.empty;
                  cache_values := PyDict.empty;
                  cache_count := PyDict.empty |} |}.

Definition set_cache_documents (c : gmap string value)
    (docs : list (gmap string value)) (m : t) : t :=
  {| _kb := _kb m;
     _cache := {| cache_documents :=
                    PyDict.set c docs (cache_documents (_cache m));
                  cache_values := cache_values (_cache m);
                  cache_count := cache_count (_cache m) |} |}.


Definition set_cache_count (c : gmap string value)
    (d : gmap string nat) (m : t) : t :=
  {| _kb := _kb m;
     _cache := {| cache_documents := cache_documents (_cache m);
                  cache_values := cache_values (_cache m);
                  cache_count := PyDict.set c d (cache_count (_cache m)) |} |}.

(** [[doc for doc in kb if not get_conflict_keys(constraints, doc)]] *)
Fixpoint docs_without_conflict (constraints : gmap string value)
    (kb : list (gmap string value)) : result (list (gmap string value)) :=
  match kb with
  | [] => Ok []
  | doc :: kb' =>
      ks ← get_conflict_keys constraints doc;
      rest ← docs_without_conflict constraints kb';
      Ok (if bool_decide (ks = ∅) then doc :: rest else rest)
  end.

(** The caches are [defaultdict]s: a key that was never written reads as
    the empty list (or the empty dict).  [frozenset(constraints.items())]
    identifies the constraint set itself. *)
Definition find_matching_docs (constraints : gmap string value)
  : St t (list (gmap string value)) :=
  let hashable_constraints := constraints in
  m ← get;
  match default [] (PyDict.get (cache_documents (_cache m))
                      hashable_constraints) with
  | [] =>
      docs ← lift (docs_without_conflict constraints (_kb m));
      _ ← modify (set_cache_documents hashable_constraints docs);
      mret docs
  | cached => mret cached
  end.


(** The loop [for k, v in constraints.items()] of [count_matches]. *)
Fixpoint count_matches_loop (items : list (string * value))
    (match_dict : gmap string nat) : St t (gmap string nat) :=
  match items with
  | [] => mret match_dict
  | (k, v) :: items' =>
      n ← (if bool_decide (v = VStr OWT)
           then m ← get; mret (length (_kb m))
           else docs ← find_matching_docs {[ k := v ]}; mret (length docs));
      count_matches_loop items' (<[k := n]> match_dict)
  end.

Definition count_matches (constraints : gmap string value)
  : St t (gmap string nat) :=
  let hashable_constraints := constraints in
  m ← get;
  if bool_decide (default ∅ (PyDict.get (cache_count (_cache m))
                               hashable_constraints) = ∅)
  then
    docs ← find_matching_docs constraints;
    match_dict ← count_matches_loop (map_to_list constraints)
                   {[ MA := length docs ]};
    _ ← modify (set_cache_count hashable_constraints match_dict);
    mret match_dict
  else mret (default ∅ (PyDict.get (cache_count (_cache m))
                          hashable_constraints)).

Definition check_goal_proposal_consistency (goal_proposal : value)
    (constraints : gmap string value) : St t bool :=
  let constraint := {[ GOAL_KEY := goal_proposal ]} in
  docs ← find_matching_docs constraint;
  match docs with
  | [proposed_doc] =>
      ks ← lift (get_conflict_keys constraints proposed_doc);
      mret (bool_decide (ks = ∅))
  | _ => raise UnpackError
  end.

Definition get_kb_size (m : t) : nat := length (_kb m).

End KBManager.
End KBManager.

(* ===================================================================== *)
(** * Acts *)
(* ===================================================================== *)

(** A user act is a special act (a [str]) or a [dict] with the inform
    mapping under [INF] and the request list under [REQ]. *)
Inductive user_act : Type :=
  | USpecial (s : string)
  | UStruct (inform : gmap string value) (request : list string).

Global Instance user_act_eq_dec : EqDecision user_act.
Proof. solve_decision. Defined.

(** An agent act is a special act (a [str]), or the tuple
    [(intent, key)], or the tuple [(intent, key, value)]. *)
Inductive agent_act : Type :=
  | ASpecial (s : string)
  | ATuple (i : intent) (key : string) (v : option value).

Global Instance agent_act_eq_dec : EqDecision agent_act.
Proof. solve_decision. Defined.

Definition emptyb (X : gset string) : bool := bool_decide (X = ∅).
Definition dict_emptyb {A} (d : gmap string A) : bool :=
  bool_decide (dom d = ∅).
Definition memb (k : string) (l : list string) : bool :=
  bool_decide (k ∈ l).

(* ===================================================================== *)
(** * StateTracker.py *)
(* ===================================================================== *)

Module StateTracker.
Section StateTracker.
Context `{ops : PyStrOps}.

Record t : Type := {
  _kb_manager : KBManager.t;
  _curr_agt_inf : gmap string value;
  _curr_usr_inf : gmap string value;
  _curr_constraints : gmap string value;
  _curr_usr_req : gset string;
  _last_agt_act : option agent_act;
  _last_usr_act : option user_act
}.

Definition reset (s : t) : t :=
  {| _kb_manager := _kb_manager s;
     _curr_agt_inf := ∅;
     _curr_usr_inf := ∅;
     _curr_constraints := ∅;
     _curr_usr_req := ∅;
     _last_agt_act := None;
     _last_usr_act := None |}.

(** [StateTracker(kb_filepath)] once the file has been read into [kb]. *)
Definition init (kb : list (gmap string value)) : t :=
  {| _kb_manager := KBManager.init kb;
     _curr_agt_inf := ∅;
     _curr_usr_inf := ∅;
     _curr_constraints := ∅;
     _curr_usr_req := ∅;
     _last_agt_act := None;
     _last_usr_act := None |}.

Definition _reset_agent_informs (s : t) : t :=
  {| _kb_manager := _kb_manager s;
     _curr_agt_inf := ∅;
     _curr_usr_inf := _curr_usr_inf s;
     _curr_constraints := _curr_usr_inf s;
     _curr_usr_req := _curr_usr_req s;
     _last_agt_act := _last_agt_act s;
     _last_usr_act := _last_usr_act s |}.

(** The three [update] calls of [process_user_action]; [d.update(e)]
    is [e ∪ d], the entries of [e] winning. *)
Definition merge_user_action (inform : gmap string value)
    (request : list string) (s : t) : t :=
  {| _kb_manager := _kb_manager s;
     _curr_agt_inf := _curr_agt_inf s;
     _curr_usr_inf := inform ∪ _curr_usr_inf s;
     _curr_constraints := inform ∪ _curr_constraints s;
     _curr_usr_req := _curr_usr_req s ∪ list_to_set request;
     _last_agt_act := _last_agt_act s;
     _last_usr_act := _last_usr_act s |}.

Definition set_last_usr_act (a : user_act) (s : t) : t :=
  {| _kb_manager := _kb_manager s;
     _curr_agt_inf := _curr_agt_inf s;
     _curr_usr_inf := _curr_usr_inf s;
     _curr_constraints := _curr_constraints s;
     _curr_usr_req := _curr_usr_req s;
     _last_agt_act := _last_agt_act s;
     _last_usr_act := Some a |}.

Definition process_user_action (user_action : user_act) : St t unit :=
  _ ← match user_action with
      | USpecial a =>
          if bool_decide (a = RJCT) then modify _reset_agent_informs
          else if memb a USR_SPEC_ACTS then mret tt
          else raise TypeError
      | UStruct inform request =>
          s ← get;
          ks ← lift (get_conflict_keys inform (_curr_agt_inf s));
          _ ← (if emptyb ks then mret tt else modify _reset_agent_informs);
          modify (merge_user_action inform request)
      end;
  modify (set_last_usr_act user_action).

Definition set_kb_manager (m : KBManager.t) (s : t) : t :=
  {| _kb_manager := m;
     _curr_agt_inf := _curr_agt_inf s;
     _curr_usr_inf := _curr_usr_inf s;
     _curr_constraints := _curr_constraints s;
     _curr_usr_req := _curr_usr_req s;
     _last_agt_act := _last_agt_act s;
     _last_usr_act := _last_usr_act s |}.


Definition set_curr_agt_inf (d : gmap string value) (s : t) : t :=
  {| _kb_manager := _kb_manager s;
     _curr_agt_inf := d;
     _curr_usr_inf := _curr_usr_inf s;
     _curr_constraints := _curr_constraints s;
     _curr_usr_req := _curr_usr_req s;
     _last_agt_act := _last_agt_act s;
     _last_usr_act := _last_usr_act s |}.


(** A call [self._kb_manager.m(...)]. *)
Definition on_kb_manager {A} (c : St KBManager.t A) : St t A := fun s =>
  match c (_kb_manager s) with
  | Ok (a, m) => Ok (a, set_kb_manager m s)
  | Raise e => Raise e
  end.


End StateTracker.
End StateTracker.

(* ===================================================================== *)
(** * RBAgent.py *)
(* ===================================================================== *)

(** [l.index(x)] *)
Fixpoint index_of {A} `{EqDecision A} (x : A) (l : list A) : result nat :=
  match l with
  | [] => Raise ValueError
  | y :: l' => if bool_decide (y = x) then Ok 0%nat
               else S <$> index_of x l'
  end.

Module RBAgent.
Section RBAgent.
Context `{ops : PyStrOps}.

Record t : Type := {
  _curr_agt_inf : gmap string value;
  _curr_usr_inf : gmap string value;
  _curr_OWT_inf : gset string;
  _curr_usr_req : gset string;
  _pending_usr_req : gset string;
  _action : option (intent * string)
}.

(** [RBAgent()]: the constructor only calls [reset]; [_action] is not
    yet bound. *)
Definition init : t :=
  {| _curr_agt_inf := ∅; _curr_usr_inf := ∅; _curr_OWT_inf := ∅;
     _curr_usr_req := ∅; _pending_usr_req := ∅; _action := None |}.

Definition reset (s : t) : t :=
  {| _curr_agt_inf := ∅; _curr_usr_inf := ∅; _curr_OWT_inf := ∅;
     _curr_usr_req := ∅; _pending_usr_req := ∅; _action := _action s |}.

Definition _reset_agent_informs (s : t) : t :=
  {| _curr_agt_inf := ∅;
     _curr_usr_inf := _curr_usr_inf s;
     _curr_OWT_inf := _curr_OWT_inf s;
     _curr_usr_req := _curr_usr_req s;
     _pending_usr_req := _curr_usr_req s;
     _action := _action s |}.

Definition record_processed_action (action : agent_act) (s : t)
  : result t :=
  match action with
  | ASpecial a =>
      if bool_decide (a = WCP) then Ok (_reset_agent_informs s)
      else if memb a AGT_SPEC_ACTS then Ok s
      else (* [action[0] == INF] on a string *)
        if bool_decide (a = "") then Raise IndexError else Ok s
  | ATuple Inform key (Some v) =>
      Ok {| _curr_agt_inf := <[key := v]> (_curr_agt_inf s);
            _curr_usr_inf := _curr_usr_inf s;
            _curr_OWT_inf := _curr_OWT_inf s;
            _curr_usr_req := _curr_usr_req s;
            _pending_usr_req := _pending_usr_req s;
            _action := _action s |}
  | ATuple Inform key None => Raise IndexError
  | ATuple Request _ _ => Ok s
  end.

(** The updates of [get_action] for a user action that is a [dict]. *)
Definition update_user (inform : gmap string value) (request : list string)
    (s : t) : t :=
  let OWT_keys := dom (filter (fun kv => kv.2 = VStr OWT) inform) in
  let not_OWT_keys := dom (filter (fun kv => kv.2 <> VStr OWT) inform) in
  {| _curr_agt_inf := _curr_agt_inf s;
     _curr_usr_inf := inform ∪ _curr_usr_inf s;
     _curr_OWT_inf := (_curr_OWT_inf s ∪ OWT_keys) ∖ not_OWT_keys;
     _curr_usr_req := (_curr_usr_req s ∪ list_to_set request) ∖ dom inform;
     _pending_usr_req :=
       (_pending_usr_req s ∪ list_to_set request) ∖ dom inform;
     _action := _action s |}.

(** The keys already informed by either side, and the keys that
    range-constrain one of them. *)
Definition irrelevant_keys (s : t) : gset string :=
  let already_inf := _curr_usr_inf s ∪ _curr_agt_inf s in
  dom already_inf ∪
  union_list
    (map (fun k : string =>
            match assoc k CONSTRAINED_KEYS_MAPS with
            | Some l => list_to_set (map fst l)
            | None => (∅ : gset string)
            end)
         (elements (dom already_inf))).

Definition relevant (s : t) (keys : list string) : list string :=
  List.filter (fun k : string => negb (bool_decide (k ∈ irrelevant_keys s)))
    keys.

(** Branch 3) of [get_action]. *)
Definition random_policy (rho : rng) (s : t) : result (intent * string) :=
  let req_keys := relevant s AGT_REQ_KEYS in
  let inf_keys := relevant s AGT_INF_KEYS in
  let inf_OWT_keys :=
    List.filter (fun k => memb k AGT_INF_KEYS)
      (elements (_curr_OWT_inf s)) in
  if memb GOAL_KEY inf_keys && random_lt rho 2 1 3 then
    Ok (Inform, GOAL_KEY)
  else if negb (bool_decide (req_keys = [])) && random_lt rho 3 1 2 then
    k ← choice rho 4 req_keys; Ok (Request, k)
  else if negb (bool_decide (inf_keys = [])) then
    k ← choice rho 5 inf_keys; Ok (Inform, k)
  else if negb (bool_decide (inf_OWT_keys = [])) && random_lt rho 6 1 2 then
    k ← choice rho 7 inf_OWT_keys; Ok (Inform, k)
  else
    k ← choice rho 8 AGT_REQ_KEYS; Ok (Request, k).

Definition set_action (a : intent * string) (s : t) : t :=
  {| _curr_agt_inf := _curr_agt_inf s;
     _curr_usr_inf := _curr_usr_inf s;
     _curr_OWT_inf := _curr_OWT_inf s;
     _curr_usr_req := _curr_usr_req s;
     _pending_usr_req :=
       match a with
       | (Inform, k) => _pending_usr_req s ∖ {[ k ]}
       | _ => _pending_usr_req s
       end;
     _action := Some a |}.

(** The part PROCESS USER ACTION of [get_action]. *)
Definition process_user (user_action : user_act) : St t unit :=
  match user_action with
  | USpecial a =>
      if bool_decide (a = RJCT) then modify _reset_agent_informs
      else if memb a USR_SPEC_ACTS then mret tt
      else raise TypeError
  | UStruct inform request =>
      s ← get;
      ks ← lift (get_conflict_keys inform (_curr_agt_inf s));
      _ ← (if emptyb ks then mret tt else modify _reset_agent_informs);
      modify (update_user inform request)
  end.

(** The part GET AGENT ACTION of [get_action]: the value bound to
    [self._action]. *)
Definition choose_action (rho : rng) (user_action : user_act) (s : t)
  : result (intent * string) :=
  match user_action with
  | UStruct _ ((_ :: _) as request) =>
      k ← choice rho 0 request; Ok (Inform, k)
  | _ =>
      if negb (emptyb (_pending_usr_req s)) then
        k ← choice rho 1 (elements (_pending_usr_req s)); Ok (Inform, k)
      else random_policy rho s
  end.

Definition get_action (rho : rng) (user_action : user_act)
  : St t (nat * (intent * string)) :=
  _ ← process_user user_action;
  s ← get;
  action ← lift (choose_action rho user_action s);
  _ ← modify (set_action action);
  i ← lift (index_of action AGT_ACTS);
  mret (i, action).

End RBAgent.
End RBAgent.

(* ===================================================================== *)
(** * Python floats (binary64) *)
(* ===================================================================== *)

Module PyFloat.

Definition prec : Z := 53.
Definition emax : Z := 1024.

(** The exact value of an [int] as an unrounded mantissa and exponent. *)
Definition exact (z : Z) : spec_float :=
  match z with
  | Z0 => S754_zero false
  | Zpos p => S754_finite false p 0
  | Zneg p => S754_finite true p 0
  end.

(** The conversion of an [int] operand of a float operation: the nearest
    float, [OverflowError] beyond the range. *)
Definition of_int (z : Z) : result spec_float :=
  match binary_normalize prec emax z 0 false with
  | S754_infinity _ => Raise OverflowError
  | f => Ok f
  end.

(** [a / b] on two [int]s: the correctly rounded quotient. *)
Definition true_div (a b : Z) : result spec_float :=
  if bool_decide (b = 0) then Raise ZeroDivisionError
  else match SFdiv prec emax (exact a) (exact b) with
       | S754_infinity _ => Raise OverflowError
       | f => Ok f
       end.

Definition add (x y : spec_float) : spec_float := SFadd prec emax x y.
Definition mul (x y : spec_float) : spec_float := SFmul prec emax x y.

(** [x * n] for a float [x] and an [int] [n]. *)
Definition mul_int (x : spec_float) (n : Z) : result spec_float :=
  y ← of_int n; Ok (mul x y).

(** The integer nearest to [m * 2^e], ties to the even one. *)
Definition round_half_even (m : positive) (e : Z) : Z :=
  match e with
  | Zneg p =>
      let d := 2 ^ Zpos p in
      let q := Zpos m `div` d in
      let r := Zpos m `mod` d in
      match 2 * r ?= d with
      | Lt => q
      | Gt => q + 1
      | Eq => if Z.even q then q else q + 1
      end
  | _ => Zpos m * 2 ^ e
  end.

(** [round(x)] with one argument. *)
Definition round (x : spec_float) : result Z :=
  match x with
  | S754_zero _ => Ok 0
  | S754_finite s m e => Ok (cond_Zopp s (round_half_even m e))
  | S754_infinity _ => Raise OverflowError
  | S754_nan => Raise ValueError
  end.

End PyFloat.

(* ===================================================================== *)
(** * UserSimulator.py *)
(* ===================================================================== *)

Module UserSimulator.
Section UserSimulator.
Context `{ops : PyStrOps}.

(** A user goal: the dict under [INF] and the list under [REQ]. *)
Record goal : Type := {
  goal_INF : gmap string value;
  goal_REQ : list string
}.

Record t : Type := {
  _goals : list goal;
  _kb_manager : KBManager.t;
  patience : Z;
  _goal : goal;
  _action : option user_act;
  _curr_agt_inf : gmap string value;
  _already_matched_inf : gset string;
  _not_sent_inf : gset string;
  _not_answ_req : gset string;
  _round : Z;
  _satisfied : bool
}.

Definition set_kb_manager (m : KBManager.t) (s : t) : t :=
  {| _goals := _goals s; _kb_manager := m; patience := patience s;
     _goal := _goal s; _action := _action s;
     _curr_agt_inf := _curr_agt_inf s;
     _already_matched_inf := _already_matched_inf s;
     _not_sent_inf := _not_sent_inf s; _not_answ_req := _not_answ_req s;
     _round := _round s; _satisfied := _satisfied s |}.

Definition set_action (a : user_act) (s : t) : t :=
  {| _goals := _goals s; _kb_manager := _kb_manager s;
     patience := patience s; _goal := _goal s; _action := Some a;
     _curr_agt_inf := _curr_agt_inf s;
     _already_matched_inf := _already_matched_inf s;
     _not_sent_inf := _not_sent_inf s; _not_answ_req := _not_answ_req s;
     _round := _round s; _satisfied := _satisfied s |}.

Definition set_curr_agt_inf (d : gmap string value) (s : t) : t :=
  {| _goals := _goals s; _kb_manager := _kb_manager s;
     patience := patience s; _goal := _goal s; _action := _action s;
     _curr_agt_inf := d;
     _already_matched_inf := _already_matched_inf s;
     _not_sent_inf := _not_sent_inf s; _not_answ_req := _not_answ_req s;
     _round := _round s; _satisfied := _satisfied s |}.

Definition set_already_matched_inf (X : gset string) (s : t) : t :=
  {| _goals := _goals s; _kb_manager := _kb_manager s;
     patience := patience s; _goal := _goal s; _action := _action s;
     _curr_agt_inf := _curr_agt_inf s;
     _already_matched_inf := X;
     _not_sent_inf := _not_sent_inf s; _not_answ_req := _not_answ_req s;
     _round := _round s; _satisfied := _satisfied s |}.

Definition set_not_sent_inf (X : gset string) (s : t) : t :=
  {| _goals := _goals s; _kb_manager := _kb_manager s;
     patience := patience s; _goal := _goal s; _action := _action s;
     _curr_agt_inf := _curr_agt_inf s;
     _already_matched_inf := _already_matched_inf s;
     _not_sent_inf := X; _not_answ_req := _not_answ_req s;
     _round := _round s; _satisfied := _satisfied s |}.

Definition set_not_answ_req (X : gset string) (s : t) : t :=
  {| _goals := _goals s; _kb_manager := _kb_manager s;
     patience := patience s; _goal := _goal s; _action := _action s;
     _curr_agt_inf := _curr_agt_inf s;
     _already_matched_inf := _already_matched_inf s;
     _not_sent_inf := _not_sent_inf s; _not_answ_req := X;
     _round := _round s; _satisfied := _satisfied s |}.

Definition set_round (n : Z) (s : t) : t :=
  {| _goals := _goals s; _kb_manager := _kb_manager s;
     patience := patience s; _goal := _goal s; _action := _action s;
     _curr_agt_inf := _curr_agt_inf s;
     _already_matched_inf := _already_matched_inf s;
     _not_sent_inf := _not_sent_inf s; _not_answ_req := _not_answ_req s;
     _round := n; _satisfied := _satisfied s |}.

Definition set_satisfied (b : bool) (s : t) : t :=
  {| _goals := _goals s; _kb_manager := _kb_manager s;
     patience := patience s; _goal := _goal s; _action := _action s;
     _curr_agt_inf := _curr_agt_inf s;
     _already_matched_inf := _already_matched_inf s;
     _not_sent_inf := _not_sent_inf s; _not_answ_req := _not_answ_req s;
     _round := _round s; _satisfied := b |}.

(** A call [self._kb_manager.m(...)]. *)
Definition on_kb_manager {A} (c : St KBManager.t A) : St t A := fun s =>
  match c (_kb_manager s) with
  | Ok (a, m) => Ok (a, set_kb_manager m s)
  | Raise e => Raise e
  end.

(** [set(self._goal[REQ] + [GOAL_KEY])] *)
Definition all_requests (g : goal) : gset string :=
  list_to_set (goal_REQ g ++ [GOAL_KEY]).

Definition reset (rho : rng) (s : t) : result t :=
  g ← choice rho 0 (_goals s);
  Ok {| _goals := _goals s; _kb_manager := _kb_manager s;
        patience := patience s; _goal := g; _action := _action s;
        _curr_agt_inf := ∅;
        _already_matched_inf := ∅;
        _not_sent_inf := dom (goal_INF g);
        _not_answ_req := all_requests g;
        _round := 0; _satisfied := false |}.

(** [UserSimulator(goals_filepath, kb_filepath, patience)] once the two
    files have been read into [goals] and [kb]. *)
Definition init (rho : rng) (goals : list goal)
    (kb : list (gmap string value)) (patience : Z) : result t :=
  g ← choice rho 0 goals;
  Ok {| _goals := goals; _kb_manager := KBManager.init kb;
        patience := patience; _goal := g; _action := None;
        _curr_agt_inf := ∅;
        _already_matched_inf := ∅;
        _not_sent_inf := dom (goal_INF g);
        _not_answ_req := all_requests g;
        _round := 0; _satisfied := false |}.

Definition _filter_req_keys (s : t) (keys : list string) : list string :=
  if dict_emptyb (_curr_agt_inf s)
  then List.filter (fun k => negb (memb k USRSIM_REQ_ONLY_AFTER_AGT_INF)) keys
  else keys.

Definition _reset_agent_informs (s : t) : t :=
  {| _goals := _goals s; _kb_manager := _kb_manager s;
     patience := patience s; _goal := _goal s; _action := _action s;
     _curr_agt_inf := ∅;
     _already_matched_inf := ∅;
     _not_sent_inf := _not_sent_inf s ∪ _already_matched_inf s;
     _not_answ_req := all_requests (_goal s);
     _round := _round s; _satisfied := _satisfied s |}.

(** [self._action[INF][key] = v] *)
Definition action_inform (key : string) (v : value) : St t unit := fun s =>
  match _action s with
  | Some (UStruct inform request) =>
      Ok (tt, set_action (UStruct (<[key := v]> inform) request) s)
  | Some (USpecial _) => Raise TypeError
  | None => Raise KeyError
  end.

(** [self._action[REQ].append(key)] *)
Definition action_request (key : string) : St t unit := fun s =>
  match _action s with
  | Some (UStruct inform request) =>
      Ok (tt, set_action (UStruct inform (request ++ [key])) s)
  | Some (USpecial _) => Raise TypeError
  | None => Raise KeyError
  end.

(** [self._action[INF][key] = self._goal[INF][key]] *)
Definition action_inform_goal (key : string) : St t unit :=
  s ← get;
  v ← lift (getitem (goal_INF (_goal s)) key);
  action_inform key v.

Definition _pick_random_action (rho : rng) : St t unit :=
  s ← get;
  let requestable_keys := _filter_req_keys s (elements (_not_answ_req s)) in
  if negb (emptyb (_not_sent_inf s)) && random_lt rho 10 2 3 then
    key ← lift (choice rho 11 (elements (_not_sent_inf s)));
    if memb key (_filter_req_keys s USR_REQ_KEYS) && random_lt rho 12 1 2
    then action_request key
    else action_inform_goal key
  else if negb (bool_decide (requestable_keys = []))
          && random_lt rho 13 2 3 then
    key ← lift (choice rho 14 requestable_keys);
    action_request key
  else modify (set_action (USpecial THX)).

(** [[ck for ck, _ in CONSTRAINED_KEYS_MAPS[key] if ck in self._goal[INF]]
     if key in CONSTRAINED_KEYS_MAPS else []] *)
Definition active_constraining (s : t) (key : string) : list string :=
  match assoc key CONSTRAINED_KEYS_MAPS with
  | Some l =>
      List.filter (fun ck => bool_decide (ck ∈ dom (goal_INF (_goal s))))
        (map fst l)
  | None => []
  end.

Definition _response_to_inform (rho : rng) (agent_action : agent_act)
  : St t unit :=
  match agent_action with
  | ATuple _ inf_key (Some inf_value) =>
      s ← get;
      let inf_dict : gmap string value := {[ inf_key := inf_value ]} in
      conflict_keys ← lift (get_conflict_keys inf_dict (goal_INF (_goal s)));
      if negb (emptyb conflict_keys) then
        _ ← modify _reset_agent_informs;
        _ ← modify (fun s =>
               set_not_sent_inf (_not_sent_inf s ∪ conflict_keys) s);
        key ← lift (choice rho 1 (elements conflict_keys));
        if random_lt rho 2 1 2 then action_inform_goal key
        else modify (set_action (USpecial RJCT))
      else
        _ ← (if bool_decide (is_Some (_curr_agt_inf s !! inf_key))
                && negb (bool_decide
                           (_curr_agt_inf s !! inf_key = Some inf_value))
             then modify _reset_agent_informs else mret tt);
        s ← get;
        let constraining_keys : gset string :=
          list_to_set (active_constraining s inf_key) in
        _ ← modify (fun s =>
               set_already_matched_inf
                 (_already_matched_inf s ∪ constraining_keys) s);
        _ ← modify (fun s =>
               set_not_sent_inf (_not_sent_inf s ∖ constraining_keys) s);
        _ ← modify (fun s =>
               if bool_decide (inf_key ∈ dom (goal_INF (_goal s)))
                  && bool_decide (inf_key ∈ _not_sent_inf s)
               then set_already_matched_inf
                      (_already_matched_inf s ∪ {[ inf_key ]}) s
               else s);
        _ ← modify (fun s =>
               set_not_sent_inf (_not_sent_inf s ∖ {[ inf_key ]}) s);
        _ ← modify (fun s =>
               set_not_answ_req (_not_answ_req s ∖ {[ inf_key ]}) s);
        _ ← modify (fun s =>
               set_curr_agt_inf (<[inf_key := inf_value]> (_curr_agt_inf s))
                 s);
        _ ← modify (fun s =>
               set_satisfied
                 (emptyb (_not_answ_req s ∪ _not_sent_inf s)) s);
        _pick_random_action rho
  | _ => raise UnpackError
  end.

Definition _response_to_request (rho : rng) (agent_action : agent_act)
  : St t unit :=
  match agent_action with
  | ATuple _ req_key None =>
      s ← get;
      let active_constraining_keys := active_constraining s req_key in
      if bool_decide (req_key ∈ dom (goal_INF (_goal s))) then
        action_inform_goal req_key
      else if negb (bool_decide (active_constraining_keys = [])) then
        _ ← mapM (M := St t) action_inform_goal active_constraining_keys;
        mret tt
      else if memb req_key (goal_REQ (_goal s)) then
        match _curr_agt_inf s !! req_key with
        | Some v =>
            if random_lt rho 1 1 3 then action_inform req_key v
            else if memb req_key (_filter_req_keys s (goal_REQ (_goal s)))
                    && random_lt rho 2 1 2
            then action_request req_key
            else action_inform req_key (VStr OWT)
        | None =>
            if memb req_key (_filter_req_keys s (goal_REQ (_goal s)))
               && random_lt rho 2 1 2
            then action_request req_key
            else action_inform req_key (VStr OWT)
        end
      else
        _ ← action_inform req_key (VStr OWT);
        if negb (emptyb (_not_sent_inf s)) && random_lt rho 3 1 3 then
          key ← lift (choice rho 4 (elements (_not_sent_inf s)));
          action_inform_goal key
        else mret tt
  | _ => raise UnpackError
  end.

Definition get_init_action (rho : rng) : St t user_act :=
  s ← get;
  let g := goal_INF (_goal s) in
  (* compulsory initial informs *)
  let inform : gmap string value :=
    fold_left
      (fun acc key =>
         match g !! key with
         | Some v => <[key := v]> acc
         | None => acc
         end)
      USRSIM_INIT_INF ∅ in
  inform ← (if dict_emptyb inform
            then kv ← lift (choice rho 0 (map_to_list g));
                 mret (<[kv.1 := kv.2]> inform)
            else mret inform);
  _ ← modify (fun s => set_not_sent_inf (_not_sent_inf s ∖ dom inform) s);
  let requestable_keys := _filter_req_keys s (goal_REQ (_goal s)) in
  request ← (if negb (bool_decide (requestable_keys = []))
             then k ← lift (choice rho 1 requestable_keys); mret [k]
             else mret []);
  mret (UStruct inform request).

(** Lines 330-341 of [step]: the round counter, the fresh action and the
    response to the agent action. *)
Definition respond (rho : rng) (agent_action : agent_act) : St t unit :=
  _ ← modify (fun s => set_round (_round s + 1) s);
  _ ← modify (set_action (UStruct ∅ []));
  match agent_action with
  | ASpecial a =>
      if bool_decide (a = WCP) then
        _ ← modify _reset_agent_informs;
        _pick_random_action rho
      else if bool_decide (a = "") then raise IndexError
      else mret tt
  | ATuple Inform _ _ => _response_to_inform rho agent_action
  | ATuple Request _ _ => _response_to_request rho agent_action
  end.

(** [self._kb_manager.check_goal_proposal_consistency(
       self._curr_agt_inf[GOAL_KEY], constraints)] *)
Definition check_proposal (constraints : gmap string value) : St t bool :=
  s ← get;
  goal_proposal ← lift (getitem (_curr_agt_inf s) GOAL_KEY);
  on_kb_manager
    (KBManager.check_goal_proposal_consistency goal_proposal constraints).

(** Lines 342-357 of [step]: [done] is returned, [_satisfied] is
    rechecked. *)
Definition conclude (agent_action : agent_act) : St t bool :=
  if bool_decide (agent_action = ASpecial NMA) then
    _ ← modify (set_satisfied false);
    mret true
  else
    s ← get;
    let done := bool_decide (_round s = patience s) || _satisfied s in
    satisfied ←
      (if _satisfied s then
         b1 ← check_proposal (goal_INF (_goal s));
         if b1 : bool then check_proposal (_curr_agt_inf s) else mret false
       else mret false);
    _ ← modify (set_satisfied satisfied);
    mret done.

(** Lines 359-362 of [step]. *)
Definition mark_sent (done : bool) (s : t) : result t :=
  if done then Ok s
  else
    match _action s with
    | Some (UStruct inform _) =>
        Ok (set_not_sent_inf (_not_sent_inf s ∖ dom inform) s)
    | Some (USpecial a) =>
        if memb a USR_SPEC_ACTS then Ok s else Raise TypeError
    | None => Raise KeyError
    end.

(** Lines 364-376 of [step]. *)
Definition compute_reward (done : bool) (s : t) : result Z :=
  if negb done then Ok (-1)
  else if _satisfied s then
    let goal_complexity :=
      Z.of_nat (length (goal_REQ (_goal s)))
      + Z.of_nat (size (goal_INF (_goal s))) in
    Ok (2 * patience s + goal_complexity)
  else
    let n_not_answ_reqs := Z.of_nat (size (_not_answ_req s)) in
    not_answered_ratio ←
      PyFloat.true_div n_not_answ_reqs
        (Z.of_nat (length (goal_REQ (_goal s))) + 1);
    let n_not_sent_infs := Z.of_nat (size (_not_sent_inf s)) in
    not_informed_ratio ←
      PyFloat.true_div n_not_sent_infs
        (Z.of_nat (size (goal_INF (_goal s))));
    let weight := PyFloat.add not_answered_ratio not_informed_ratio in
    x ← PyFloat.mul_int weight (patience s);
    r ← PyFloat.round x;
    Ok (- r).

Definition step (rho : rng) (agent_action : agent_act)
  : St t (user_act * Z * bool * bool) :=
  _ ← respond rho agent_action;
  done ← conclude agent_action;
  s ← get;
  s ← lift (mark_sent done s);
  _ ← put s;
  reward ← lift (compute_reward done s);
  action ← lift (match _action s with
                 | Some a => Ok a
                 | None => Raise KeyError
                 end);
  mret (action, reward, done, _satisfied s).

End UserSimulator.
End UserSimulator.

(* ===================================================================== *)
(** * DialogueManager.py: the experience memories *)
(* ===================================================================== *)

Module DialogueManager.
Section DialogueManager.

(** [state] is the type of the state vector returned by
    [StateTracker.get_state] and [agent] the type of the [RLAgent]; the
    memories only store and never inspect them. *)
Context {state agent : Type}.

(** The tuple [(state, action, reward, next_state, done)]. *)
Definition experience : Type := state * nat * Z * state * bool.

Record t : Type := {
  _state_tracker : StateTracker.t;
  _rl_agt : agent;
  _rb_agt : RBAgent.t;
  _rl_mem : list experience;
  rl_mem_size : Z;
  _warmup_mem : list experience;
  warmup_mem_size : Z
}.

Definition set_rl_mem (l : list experience) (dm : t) : t :=
  {| _state_tracker := _state_tracker dm; _rl_agt := _rl_agt dm;
     _rb_agt := _rb_agt dm; _rl_mem := l; rl_mem_size := rl_mem_size dm;
     _warmup_mem := _warmup_mem dm;
     warmup_mem_size := warmup_mem_size dm |}.

Definition set_warmup_mem (l : list experience) (dm : t) : t :=
  {| _state_tracker := _state_tracker dm; _rl_agt := _rl_agt dm;
     _rb_agt := _rb_agt dm; _rl_mem := _rl_mem dm;
     rl_mem_size := rl_mem_size dm; _warmup_mem := l;
     warmup_mem_size := warmup_mem_size dm |}.

(** [len(l)] *)
Definition len {A} (l : list A) : Z := Z.of_nat (length l).

(** Returns the flag and the manager after the call. *)
Definition add_experience (s : state) (action : nat) (reward : Z)
    (next_state : state) (done : bool) (warmup : bool) (dm : t)
  : bool * t :=
  if (bool_decide (len (_warmup_mem dm) = warmup_mem_size dm) && warmup)
     || (bool_decide (len (_rl_mem dm) = rl_mem_size dm) && negb warmup)
  then (true, dm)
  else if warmup
  then (false,
        set_warmup_mem
          (_warmup_mem dm ++ [(s, action, reward, next_state, done)]) dm)
  else (false,
        set_rl_mem
          (_rl_mem dm ++ [(s, action, reward, next_state, done)]) dm).

(** A sequence of [add_experience] calls, each given by its six
    arguments. *)
Definition call : Type := experience * bool.

Definition add_call (c : call) (dm : t) : bool * t :=
  let '((s, a, r, s', d), warmup) := c in add_experience s a r s' d warmup dm.

Definition run_calls (calls : list call) (dm : t) : t :=
  fold_left (fun dm c => (add_call c dm).2) calls dm.

(** The memory [add_experience] selects. *)
Definition selected (warmup : bool) (dm : t) : list experience :=
  if warmup then _warmup_mem dm else _rl_mem dm.
Definition capacity (warmup : bool) (dm : t) : Z :=
  if warmup then warmup_mem_size dm else rl_mem_size dm.

Definition within_capacity (dm : t) : Prop :=
  len (_warmup_mem dm) <= warmup_mem_size dm
  /\ len (_rl_mem dm) <= rl_mem_size dm.

End DialogueManager.
Arguments t : clear implicits.
End DialogueManager.

(* ===================================================================== *)
(** * Documents of the knowledge base *)
(* ===================================================================== *)

(** The fields of a document, as written by
    [utils/generate_knowledge_base.py]. *)
Definition DOCUMENT_KEYS : list string :=
  [ "authors"; "open_access"; "document_title"; "publication_title";
    "publisher"; "content_type"; "publication_year"; "doi";
    "num_citations"; "abstract" ].

(** A context that is a document: every key of it is a document field. *)
Definition is_document (doc : gmap string value) : Prop :=
  dom doc ⊆ (list_to_set DOCUMENT_KEYS : gset string).

(* ===================================================================== *)
(** * KBManager: what the cached queries compute *)
(* ===================================================================== *)

Module KBSpec.
Import KBManager.
Section KBSpec.
Context `{ops : PyStrOps}.

(** The values [find_matching_value] draws from. *)
Definition values_for (key : string) (constraints : gmap string value)
    (kb : list (gmap string value)) : result (list string) :=
  documents ← docs_without_conflict constraints kb;
  match documents with
  | [] => Ok [NMA]
  | _ => mapR (fun doc => py_str <$> getitem doc key) documents
  end.

(** The count [count_matches] stores for the entry [(k, v)]. *)
Definition single_count (kb : list (gmap string value)) (k : string)
    (v : value) : result nat :=
  if bool_decide (v = VStr OWT) then Ok (length kb)
  else length <$> docs_without_conflict {[ k := v ]} kb.

(** The loop of [count_matches] on the knowledge base itself. *)
Fixpoint count_loop (kb : list (gmap string value))
    (items : list (string * value)) (match_dict : gmap string nat)
  : result (gmap string nat) :=
  match items with
  | [] => Ok match_dict
  | (k, v) :: items' =>
      n ← single_count kb k v;
      count_loop kb items' (<[k := n]> match_dict)
  end.

Definition count_for (constraints : gmap string value)
    (kb : list (gmap string value)) : result (gmap string nat) :=
  docs ← docs_without_conflict constraints kb;
  count_loop kb (map_to_list constraints) {[ MA := length docs ]}.

(** Coherence of the cache: an entry that is not the default value holds
    what the query computes on the knowledge base. *)
Definition cache_ok (m : t) : Prop :=
  (forall c docs,
      PyDict.get (cache_documents (_cache m)) c = Some docs ->
      docs <> [] ->
      docs_without_conflict c (_kb m) = Ok docs)
  /\ (forall key c vals,
        PyDict.get (cache_values (_cache m)) (key, c) = Some vals ->
        vals <> [] ->
        values_for key c (_kb m) = Ok vals)
  /\ (forall c d,
        PyDict.get (cache_count (_cache m)) c = Some d ->
        d <> ∅ ->
        count_for c (_kb m) = Ok d).

(** The method [c], run on a manager with a coherent cache, computes
    [pure] on the knowledge base, raises exactly when [pure] does, and
    leaves a coherent cache over the same knowledge base. *)
Definition computes {A} (c : St t A)
    (pure : list (gmap string value) -> result A) : Prop :=
  forall m, cache_ok m ->
    match pure (_kb m) with
    | Ok a => exists m', c m = Ok (a, m') /\ cache_ok m'
                         /\ _kb m' = _kb m
    | Raise e => c m = Raise e
    end.

End KBSpec.
End KBSpec.

Section consistency.
Context `{ops : PyStrOps}.

(** What [check_goal_proposal_consistency] computes on the knowledge
    base. *)
Definition consistency_for (goal_proposal : value)
    (constraints : gmap string value) (kb : list (gmap string value))
  : result bool :=
  docs ← KBManager.docs_without_conflict {[ GOAL_KEY := goal_proposal ]} kb;
  match docs with
  | [proposed_doc] =>
      ks ← get_conflict_keys constraints proposed_doc;
      Ok (bool_decide (ks = ∅))
  | _ => Raise UnpackError
  end.

End consistency.

(** [r] raises nothing but [MatchError]. *)
Definition raises_only_MatchError {A} (r : result A) : Prop :=
  forall e, r = Raise e -> e = MatchError.

(* ===================================================================== *)
(** * Sample data: the one-document knowledge base of the scenarios *)
(* ===================================================================== *)

Definition doc_D1 : gmap string value :=
  list_to_map
    [ ("doi", VStr "D1"); ("authors", VStr "Alice Smith");
      ("content_type", VStr "Journals"); ("open_access", VStr "Yes");
      ("publication_year", VInt 2020); ("num_citations", VInt 10) ].

Definition sample_kb : list (gmap string value) := [doc_D1].

Definition doc_Bob : gmap string value :=
  list_to_map
    [ ("doi", VStr "D2"); ("authors", VStr "Bob");
      ("content_type", VStr "Journals"); ("open_access", VStr "Yes");
      ("publication_year", VInt 2021); ("num_citations", VInt 3) ].

(* ===================================================================== *)
(** * StateTracker: reading a user action *)
(* ===================================================================== *)



Section conflicts.
Context `{ops : PyStrOps}.


End conflicts.



(* ===================================================================== *)
(** * RBAgent: the states an agent goes through *)
(* ===================================================================== *)

(** A user action built from the configured keys: a special act of
    [USR_SPEC_ACTS], or informs over [USR_INF_KEYS] and requests over
    [USR_REQ_KEYS]. *)
Definition configured_user_act (a : user_act) : Prop :=
  match a with
  | USpecial x => x ∈ USR_SPEC_ACTS
  | UStruct inform request =>
      dom inform ⊆ (list_to_set USR_INF_KEYS : gset string)
      /\ (list_to_set request : gset string) ⊆ list_to_set USR_REQ_KEYS
  end.

Section rb_states.
Context `{ops : PyStrOps}.

(** The states of a rule-based agent: the constructed one, and those
    obtained by [reset], by [get_action] on a configured user action and by
    [record_processed_action]. *)
Inductive rb_reachable : RBAgent.t -> Prop :=
  | rb_reach_init : rb_reachable RBAgent.init
  | rb_reach_reset s : rb_reachable s -> rb_reachable (RBAgent.reset s)
  | rb_reach_get_action s rho a r s' :
      rb_reachable s -> configured_user_act a ->
      RBAgent.get_action rho a s = Ok (r, s') -> rb_reachable s'
  | rb_reach_record s a s' :
      rb_reachable s -> RBAgent.record_processed_action a s = Ok s' ->
      rb_reachable s'.

End rb_states.

(** The agent act a pair of [AGT_ACTS] stands for. *)
Definition act_of_pair (p : intent * string) : agent_act :=
  ATuple p.1 p.2 None.

(* ===================================================================== *)
(** * UserSimulator: episodes *)
(* ===================================================================== *)

Section us_states.
Context `{ops : PyStrOps}.

(** The states of a simulator as [run_episode] drives it: the flag tells
    whether the last [step] has reported [done].  A simulator is
    constructed or reset, gives its initial action, and is stepped as long
    as it has not reported [done]; it can be reset at any time. *)
Inductive us_state : bool -> UserSimulator.t -> Prop :=
  | us_state_init rho goals kb patience s :
      UserSimulator.init rho goals kb patience = Ok s ->
      us_state false s
  | us_state_reset rho b s s' :
      us_state b s -> UserSimulator.reset rho s = Ok s' ->
      us_state false s'
  | us_state_init_action rho s a s' :
      us_state false s ->
      UserSimulator.get_init_action rho s = Ok (a, s') ->
      us_state false s'
  | us_state_step rho agent_action s action reward done satisfied s' :
      us_state false s ->
      UserSimulator.step rho agent_action s
      = Ok ((action, reward, done, satisfied), s') ->
      us_state done s'.

End us_states.

(** The reward of a turn that ends the episode unsatisfied, as the
    specification words it: [-round(unanswered / (|requests| + 1)
    + unsent / |informs|) * patience]. *)
Definition specified_unsatisfied_reward (s : UserSimulator.t) : result Z :=
  not_answered_ratio ←
    PyFloat.true_div (Z.of_nat (size (UserSimulator._not_answ_req s)))
      (Z.of_nat (length (UserSimulator.goal_REQ (UserSimulator._goal s)))
       + 1);
  not_informed_ratio ←
    PyFloat.true_div (Z.of_nat (size (UserSimulator._not_sent_inf s)))
      (Z.of_nat (size (UserSimulator.goal_INF (UserSimulator._goal s))));
  r ← PyFloat.round (PyFloat.add not_answered_ratio not_informed_ratio);
  Ok (- r * UserSimulator.patience s).

(** A float that is not below zero: a zero, a positive number, plus
    infinity or a NaN. *)
Definition not_negative (x : spec_float) : Prop :=
  match x with
  | S754_finite true _ _ | S754_infinity true => False
  | _ => True
  end.

(* ===================================================================== *)
(** * Sample data: two simulated episodes over the one-document base *)
(* ===================================================================== *)

(** A goal with one inform and no request. *)
Definition goal_Bob : UserSimulator.goal :=
  {| UserSimulator.goal_INF := {[ "authors" := VStr "Bob" ]};
     UserSimulator.goal_REQ := [] |}.

(** A goal with two informs and no request. *)
Definition goal_Bob_Journals : UserSimulator.goal :=
  {| UserSimulator.goal_INF :=
       <["content_type" := VStr "Journals"]> {[ "authors" := VStr "Bob" ]};
     UserSimulator.goal_REQ := [] |}.

(** The oracle whose draws are all 0. *)
Definition rho0 : rng := fun _ => 0%nat.

Section scenario.
Context `{ops : PyStrOps}.

(** The simulator constructed with the only goal [g], the knowledge base
    [[doc_Bob]] and patience 15, after its initial action. *)
Definition sim_started (g : UserSimulator.goal) : result UserSimulator.t :=
  s ← UserSimulator.init rho0 [g] [doc_Bob] 15;
  snd <$> UserSimulator.get_init_action rho0 s.

(** The values returned by one more [step]. *)
Definition sim_step (g : UserSimulator.goal) (agent_action : agent_act)
  : result (user_act * Z * bool * bool) :=
  s ← sim_started g;
  fst <$> UserSimulator.step rho0 agent_action s.

(** The reward the specification words for the state left by that
    [step]. *)
Definition sim_specified_reward (g : UserSimulator.goal)
    (agent_action : agent_act) : result Z :=
  s ← sim_started g;
  out ← UserSimulator.step rho0 agent_action s;
  specified_unsatisfied_reward out.2.

End scenario.

(* ===================================================================== *)
(** * RLAgent.py *)
(* ===================================================================== *)

(** What [RLAgent] takes from Keras and NumPy: the numbers of the
    arrays with their arithmetic, [np.amax] and [np.argmax] on a row, the
    weights of a model, [model.predict] on a batch of states and
    [model.fit] for one epoch on a batch of states and targets.  [state]
    is the type of a state vector. *)
Class Backend (state : Type) : Type := {
  num : Type;
  add : num -> num -> num;
  mul : num -> num -> num;
  of_int : Z -> num;
  of_bool : bool -> num;
  amax : list num -> result num;
  argmax : list num -> result nat;
  weights : Type;
  predict : weights -> list state -> list (list num);
  fit : weights -> list state -> list (list num) -> weights
}.

(** [x[i]] on a list. *)
Definition nth_item {A} (l : list A) (i : nat) : result A :=
  match l !! i with
  | Some x => Ok x
  | None => Raise IndexError
  end.

(** [x[i], x[j] = x[j], x[i]] *)
Definition swap_items {A} (i j : nat) (l : list A) : list A :=
  match l !! i, l !! j with
  | Some x, Some y => <[j := x]> (<[i := y]> l)
  | _, _ => l
  end.

(** [random.shuffle(x)]:
    [for i in reversed(range(1, len(x))): j = randbelow(i + 1);
     x[i], x[j] = x[j], x[i]]; the draw for index [i] is cell [i] of the
    oracle. *)
Definition shuffle {A} (rho : rng) (l : list A) : list A :=
  fold_left (fun x i => swap_items i (rho i `mod` (i + 1))%nat x)
    (rev (seq 1 (length l - 1))) l.

(** [range(0, n, step)] for a positive [step]. *)
Definition range_step (n step : nat) : list nat :=
  map (fun k => k * step)%nat (seq 0 ((n + step - 1) `div` step)).

(** [[l[i : i + size] for i in range(0, len(l), size)]] *)
Definition batches_of {A} (size : Z) (l : list A)
  : result (list (list A)) :=
  if bool_decide (size = 0) then Raise ValueError
  else if bool_decide (size < 0) then Ok []
  else Ok (map (fun i => take (Z.to_nat size) (drop i l))
             (range_step (length l) (Z.to_nat size))).

Module RLAgent.
Section RLAgent.
Context {state : Type} `{B : Backend state}.

(** An experience [(state, action, reward, next_state, done)]. *)
Definition experience : Type := state * nat * Z * state * bool.

Record t : Type := {
  gamma : num;
  epsilon : num;
  epsilon_decay : num;
  vanilla : bool;
  batch_size : Z;
  _beh_model : weights
}.

(** The value of [s'] for experience [i] of a batch: [v_prime] before
    it is multiplied by [not d]. *)
Definition next_value (a : t) (tar_q_prime : list (list num))
    (beh_q_prime : option (list (list num))) (i : nat) : result num :=
  tar_row ← nth_item tar_q_prime i;
  if vanilla a then amax tar_row
  else
    match beh_q_prime with
    | Some beh_q_prime =>
        beh_row ← nth_item beh_q_prime i;
        j ← argmax beh_row;
        nth_item tar_row j
    | None => Raise TypeError
    end.

(** [r + self.gamma * v_prime] after [v_prime *= not d]. *)
Definition target_value (a : t) (r : Z) (v_prime : num) (d : bool) : num :=
  add (of_int r) (mul (gamma a) (mul v_prime (of_bool (negb d)))).

(** [q[i][a] = x] *)
Definition set_entry (q : list (list num)) (i act : nat) (x : num)
  : result (list (list num)) :=
  row ← nth_item q i;
  if bool_decide (act < length row)%nat
  then Ok (<[i := <[act := x]> row]> q)
  else Raise IndexError.

(** The loop [for i, (_, a, r, _, d) in enumerate(batch)], from index
    [i] on. *)
Fixpoint q_learning (a : t) (tar_q_prime : list (list num))
    (beh_q_prime : option (list (list num))) (i : nat)
    (batch : list experience) (q : list (list num))
  : result (list (list num)) :=
  match batch with
  | [] => Ok q
  | (_, act, r, _, d) :: batch' =>
      v_prime ← next_value a tar_q_prime beh_q_prime i;
      q ← set_entry q i act (target_value a r v_prime d);
      q_learning a tar_q_prime beh_q_prime (S i) batch' q
  end.

Definition states_of (batch : list experience) : list state :=
  map (fun '(s, _, _, _, _) => s) batch.
Definition next_states_of (batch : list experience) : list state :=
  map (fun '(_, _, _, s', _) => s') batch.

(** The targets [q] handed to [fit] for one batch: the behavior model
    [beh] and the target model [tar] predict, the loop overwrites the
    entries of the taken actions. *)
Definition batch_targets (a : t) (tar beh : weights)
    (batch : list experience) : result (list (list num)) :=
  let s := states_of batch in
  let s_prime := next_states_of batch in
  let q := predict beh s in
  let tar_q_prime := predict tar s_prime in
  let beh_q_prime :=
    if vanilla a then None else Some (predict beh s_prime) in
  q_learning a tar_q_prime beh_q_prime 0 batch q.

(** The loop [for batch in tqdm(batches)]: the behavior weights after
    it. *)
Fixpoint train_batches (a : t) (tar beh : weights)
    (batches : list (list experience)) : result weights :=
  match batches with
  | [] => Ok beh
  | batch :: batches' =>
      q ← batch_targets a tar beh batch;
      train_batches a tar (fit beh (states_of batch) q) batches'
  end.

Definition train (rho : rng) (experience_set : list experience) (a : t)
  : result t :=
  (* clone the behavior model to the target model *)
  let tar_model := _beh_model a in
  let experience_set := shuffle rho experience_set in
  batches ← batches_of (batch_size a) experience_set;
  beh ← train_batches a tar_model (_beh_model a) batches;
  Ok {| gamma := gamma a;
        epsilon := mul (epsilon a) (epsilon_decay a);
        epsilon_decay := epsilon_decay a;
        vanilla := vanilla a;
        batch_size := batch_size a;
        _beh_model := beh |}.

(** The target of Double DQN for one experience as the specification
    words it, given the rows the target and the behavior model predict for
    its next state: [reward + gamma * target_row[argmax behavior_row]]
    when not terminal, [reward] when terminal. *)
Definition double_dqn_target (a : t) (tar_row beh_row : list num)
    (r : Z) (d : bool) : result num :=
  if d then Ok (of_int r)
  else
    j ← argmax beh_row;
    v ← nth_item tar_row j;
    Ok (add (of_int r) (mul (gamma a) v)).

End RLAgent.
Arguments t {state B}.
End RLAgent.

(* ===================================================================== *)
(** * Sample data: a bias-only network over binary64 *)
(* ===================================================================== *)

(** The float [n / d]. *)
Definition flt (n d : Z) : spec_float :=
  match PyFloat.true_div n d with
  | Ok x => x
  | Raise _ => S754_nan
  end.

(** The first index of a maximal entry from position [i] on, given the
    best index and value so far. *)
Fixpoint argmax_go (best : nat) (best_v : spec_float) (i : nat)
    (row : list spec_float) : nat :=
  match row with
  | [] => best
  | x :: row' =>
      if SFltb best_v x then argmax_go i x (S i) row'
      else argmax_go best best_v (S i) row'
  end.

Definition sf_argmax (row : list spec_float) : result nat :=
  match row with
  | [] => Raise ValueError
  | x :: row' => Ok (argmax_go 0 x 1 row')
  end.

Definition sf_amax (row : list spec_float) : result spec_float :=
  i ← sf_argmax row; nth_item row i.

(** A network without inputs: its weights are the output row it
    predicts for every state; fitting it on a batch moves it onto the
    last target row. *)
Global Instance bias_only : Backend (list spec_float) := {|
  num := spec_float;
  add := PyFloat.add;
  mul := PyFloat.mul;
  of_int := fun z => match PyFloat.of_int z with
                     | Ok x => x
                     | Raise _ => S754_infinity (bool_decide (z < 0))
                     end;
  of_bool := fun b => if b then flt 1 1 else flt 0 1;
  amax := sf_amax;
  argmax := sf_argmax;
  weights := list spec_float;
  predict := fun w ss => map (fun _ => w) ss;
  fit := fun w _ q => List.last q w
|}.

(** An agent with the default [vanilla=True], [gamma = 0.5], batches of
    one experience, and a network over the 21 actions of [AGT_ACTS] that
    predicts 1 for action 0 and 0 for the others. *)
Definition agent_default : RLAgent.t (B := bias_only) :=
  {| RLAgent.gamma := flt 1 2;
     RLAgent.epsilon := flt 1 10;
     RLAgent.epsilon_decay := flt 99 100;
     RLAgent.vanilla := true;
     RLAgent.batch_size := 1;
     RLAgent._beh_model := flt 1 1 :: replicate 20 (flt 0 1) |}.

(** Two experiences: action 1 with reward 2, action 0 with reward 0;
    neither is terminal. *)
Definition exp_1 : RLAgent.experience (state := list spec_float) :=
  ([flt 0 1], 1%nat, 2, [flt 0 1], false).
Definition exp_2 : RLAgent.experience (state := list spec_float) :=
  ([flt 0 1], 0%nat, 0, [flt 0 1], false).

(** The agent after training on [[exp_2; exp_1]]. *)
Definition agent_trained : RLAgent.t (B := bias_only) :=
  {| RLAgent.gamma := flt 1 2;
     RLAgent.epsilon := PyFloat.mul (flt 1 10) (flt 99 100);
     RLAgent.epsilon_decay := flt 99 100;
     RLAgent.vanilla := true;
     RLAgent.batch_size := 1;
     RLAgent._beh_model := flt 1 2 :: flt 5 2 :: replicate 19 (flt 0 1) |}.

(* ===================================================================== *)
(** * Sample data: the string operations of the examples *)
(* ===================================================================== *)

(** The operations on ASCII text of the module [AsciiStr].  The examples
    and scenarios of this file are evaluated with them; all their strings
    are ASCII. *)
Global Instance ascii_ops : PyStrOps := {|
  str_isdigit := AsciiStr.isdigit;
  str_int := AsciiStr.int_of_str;
  re_sub_punct := AsciiStr.sub_punct;
  str_lower := AsciiStr.lower;
  str_split := AsciiStr.split;
  str_find := AsciiStr.find
|}.

(* ===================================================================== *)
(** * Examples: the string and matching functions on concrete inputs *)
(* ===================================================================== *)

Example isdigit_ex : AsciiStr.isdigit "2020" = true /\ AsciiStr.isdigit "" = false
  /\ AsciiStr.isdigit "-5" = false.
Proof. vm_compute. repeat split. Qed.

Example split_ex : AsciiStr.split "  deep   learning
 x " = ["deep"; "learning"; "x"].
Proof. vm_compute. repeat split. Qed.

Example py_str_ex :
  py_str (VInt (-12)) = "-12" /\ py_str (VInt 2020) = "2020"
  /\ py_str (VInt 0) = "0" /\ py_str (VStr "Bob") = "Bob".
Proof. vm_compute. repeat split. Qed.

Example constrained_keys_maps_ex :
  map (fun '(k, l) => (k, map fst l)) CONSTRAINED_KEYS_MAPS
  = [ ("num_citations", ["min_num_citations"]);
      ("publication_year",
       ["min_publication_year"; "max_publication_year"]) ].
Proof. reflexivity. Qed.

Example conflict_ex1 :
  get_conflict_keys {[ "authors" := VStr "Alice" ]}
                    {[ "authors" := VStr "Bob" ]} = Ok {[ "authors" ]}.
Proof. vm_compute. repeat split. Qed.

Example conflict_ex2 :
  get_conflict_keys {[ "min_num_citations" := VInt 5 ]}
     (<["num_citations" := VInt 3]> {[ "doi" := VStr "D1" ]})
  = Ok {[ "num_citations" ]}.
Proof. vm_compute. repeat split. Qed.

Example conflict_ex3 :
  get_conflict_keys {[ "publication_year" := VStr "2020" ]}
     (<["min_publication_year" := VStr "2021"]>
        {[ "max_publication_year" := VStr "2019" ]})
  = Ok {[ "min_publication_year"; "max_publication_year" ]}.
Proof. vm_compute. repeat split. Qed.

Example conflict_ex4 :
  get_conflict_keys {[ "min_publication_year" := VStr "abc" ]}
     {[ "publication_year" := VInt 2020 ]} = Raise MatchError.
Proof. vm_compute. repeat split. Qed.

Example true_div_ex :
  PyFloat.true_div 1 3 = Ok (S754_finite false 6004799503160661 (-54))
  /\ PyFloat.true_div 1 10 = Ok (S754_finite false 7205759403792794 (-56))
  /\ PyFloat.true_div 1 4 = Ok (S754_finite false 4503599627370496 (-54))
  /\ PyFloat.true_div 0 4 = Ok (S754_zero false)
  /\ PyFloat.true_div 1 0 = Raise ZeroDivisionError.
Proof. vm_compute. repeat split. Qed.

Example round_ex :
  (x ← PyFloat.true_div 15 4; PyFloat.round x) = Ok 4
  /\ (x ← PyFloat.true_div 9 2; PyFloat.round x) = Ok 4
  /\ (x ← PyFloat.true_div 11 2; PyFloat.round x) = Ok 6
  /\ (x ← PyFloat.true_div 1 4; PyFloat.round x) = Ok 0
  /\ (x ← PyFloat.true_div (-5) 2; PyFloat.round x) = Ok (-2)
  /\ (x ← PyFloat.of_int 7; PyFloat.round x) = Ok 7.
Proof. vm_compute. repeat split. Qed.

(* ===================================================================== *)
(** * DialogueManager: the experience memories stay within capacity *)
(* ===================================================================== *)

Module DialogueManagerProofs.
Import DialogueManager.
Section Proofs.
Context {state agent : Type}.
Implicit Types (dm : t state agent) (e : @experience state).

Lemma add_experience_full s a r s' d warmup dm :
  len (selected warmup dm) = capacity warmup dm ->
  add_experience s a r s' d warmup dm = (true, dm).
Proof.
  unfold add_experience, selected, capacity.
  destruct warmup; intros Heq; simpl;
    rewrite (bool_decide_eq_true_2 _ Heq); simpl;
    by rewrite ?andb_false_r, ?orb_true_r.
Qed.

Lemma add_experience_room s a r s' d warmup dm :
  len (selected warmup dm) <> capacity warmup dm ->
  exists dm',
    add_experience s a r s' d warmup dm = (false, dm')
    /\ selected warmup dm' = selected warmup dm ++ [(s, a, r, s', d)]
    /\ selected (negb warmup) dm' = selected (negb warmup) dm
    /\ rl_mem_size dm' = rl_mem_size dm
    /\ warmup_mem_size dm' = warmup_mem_size dm.
Proof.
  unfold add_experience, selected, capacity.
  destruct warmup; intros Hne; simpl;
    rewrite (bool_decide_eq_false_2 _ Hne); simpl;
    rewrite ?andb_false_r, ?orb_false_r; simpl;
    eexists; repeat split; reflexivity.
Qed.

Lemma add_experience_within s a r s' d warmup dm :
  within_capacity dm ->
  within_capacity (add_experience s a r s' d warmup dm).2.
Proof.
  intros [Hw Hr].
  destruct (decide (len (selected warmup dm) = capacity warmup dm))
    as [Heq|Hne].
  - by rewrite add_experience_full.
  - destruct (add_experience_room s a r s' d warmup dm Hne)
      as (dm' & -> & Hsel & Hoth & Hrs & Hws); simpl.
    unfold within_capacity, selected, capacity, len in *.
    destruct warmup; simpl in *; rewrite Hsel, Hoth, Hrs, Hws;
      rewrite length_app; simpl; lia.
Qed.

Lemma run_calls_within calls dm :
  within_capacity dm -> within_capacity (run_calls calls dm).
Proof.
  revert dm. induction calls as [|c calls IH]; intros dm Hdm; [done|].
  simpl. apply IH. destruct c as [[[[[s a] r] s'] d] warmup].
  by apply add_experience_within.
Qed.

(** C4. After any sequence of [add_experience] calls that starts from
    memories within their capacity, both memories are within their
    capacity; a further call on a memory that holds its capacity returns
    [True] and changes nothing; any other call returns [False], appends
    exactly the given tuple to the selected memory and leaves the other
    memory and both capacities as they were. *)
Theorem add_experience_capacity dm0 calls s a r s' d warmup :
  within_capacity dm0 ->
  let dm := run_calls calls dm0 in
  let out := add_experience s a r s' d warmup dm in
  within_capacity dm
  /\ within_capacity out.2
  /\ (len (selected warmup dm) = capacity warmup dm ->
      out = (true, dm))
  /\ (len (selected warmup dm) <> capacity warmup dm ->
      out.1 = false
      /\ selected warmup out.2 = selected warmup dm ++ [(s, a, r, s', d)]
      /\ selected (negb warmup) out.2 = selected (negb warmup) dm
      /\ rl_mem_size out.2 = rl_mem_size dm
      /\ warmup_mem_size out.2 = warmup_mem_size dm).
Proof.
  intros H0 dm out.
  assert (Hdm : within_capacity dm) by by apply run_calls_within.
  split; [done|]. split; [by apply add_experience_within|].
  split.
  - intros Hfull. by apply add_experience_full.
  - intros Hroom.
    destruct (add_experience_room s a r s' d warmup dm Hroom)
      as (dm' & Heq & ?). subst out. by rewrite Heq.
Qed.

End Proofs.
End DialogueManagerProofs.

(** The capacity theorem at a one-slot warm-up memory: the first call
    stores the tuple, the second one reports that the memory is full. *)
Lemma add_experience_capacity_witness :
  let dm0 : DialogueManager.t unit unit :=
    {| DialogueManager._state_tracker := StateTracker.init [];
       DialogueManager._rl_agt := tt;
       DialogueManager._rb_agt := RBAgent.init;
       DialogueManager._rl_mem := [];
       DialogueManager.rl_mem_size := 1;
       DialogueManager._warmup_mem := [];
       DialogueManager.warmup_mem_size := 1 |} in
  let dm := DialogueManager.run_calls [((tt, 0%nat, -1, tt, false), true)] dm0 in
  DialogueManager.within_capacity dm0
  /\ DialogueManager._warmup_mem dm = [(tt, 0%nat, -1, tt, false)]
  /\ DialogueManager.add_experience tt 1%nat 32 tt true true dm = (true, dm).
Proof.
  intros dm0 dm.
  assert (H0 : DialogueManager.within_capacity dm0)
    by (split; simpl; unfold DialogueManager.len; simpl; lia).
  split; [exact H0|]. split; [reflexivity|].
  destruct (DialogueManagerProofs.add_experience_capacity dm0
              [((tt, 0%nat, -1, tt, false), true)] tt 1%nat 32 tt true true H0)
    as (_ & _ & Hfull & _).
  apply Hfull. reflexivity.
Defined.

(* ===================================================================== *)
(** * match.py: preprocessing and conflicts of a one-key inform *)
(* ===================================================================== *)

Section match_facts.
Context `{ops : PyStrOps}.

Lemma mapR_Forall2 {A B} (f : A -> result B) l ys :
  mapR f l = Ok ys <-> Forall2 (fun x y => f x = Ok y) l ys.
Proof.
  revert ys. induction l as [|x l IH]; intros ys; cbn [mapR].
  - split; [intros [= <-]; apply Forall2_nil_2|by intros ->%Forall2_nil_inv_l].
  - destruct (f x) as [y|e] eqn:Hx; simpl.
    + destruct (mapR f l) as [ys'|e] eqn:Hl; simpl.
      * split.
        -- intros [= <-]. constructor; [done|by apply IH].
        -- intros (y' & ys'' & Hy & Hys & ->)%Forall2_cons_inv_l.
           rewrite Hx in Hy. injection Hy as ->.
           apply IH in Hys. by injection Hys as ->.
      * split; [done|].
        intros (y' & ys'' & Hy & Hys & ->)%Forall2_cons_inv_l.
        by apply IH in Hys.
    + split; [done|].
      intros (y' & ys'' & Hy & Hys & ->)%Forall2_cons_inv_l.
      by rewrite Hx in Hy.
Qed.

Lemma mapR_raises {A B} (f : A -> result B) l e :
  mapR f l = Raise e -> exists x, x ∈ l /\ f x = Raise e.
Proof.
  induction l as [|x l IH]; cbn [mapR]; [done|].
  destruct (f x) as [y|e'] eqn:Hx; simpl.
  - destruct (mapR f l) as [ys|e'] eqn:Hl; simpl; [done|].
    intros [= ->]. destruct (IH eq_refl) as (x' & Hin & Hx').
    exists x'. split; [by right|done].
  - intros [= ->]. exists x. split; [by left|done].
Qed.

Lemma mapR_returns {A B} (f : A -> result B) l :
  (forall x, x ∈ l -> exists y, f x = Ok y) -> exists ys, mapR f l = Ok ys.
Proof.
  intros Hall. destruct (mapR f l) as [ys|e] eqn:Hm; [by eexists|].
  apply mapR_raises in Hm as (x & Hin & Hx).
  destruct (Hall x Hin) as [y Hy]. congruence.
Qed.

Lemma preprocess_value_raises v e :
  preprocess_value v = Raise e -> e = MatchError.
Proof.
  destruct v as [n|s]; simpl; [done|].
  destruct (str_isdigit s); [|done]. destruct (str_int s); [done|].
  by intros [= <-].
Qed.

(** The entries of a preprocessed dictionary. *)
Lemma preprocess_Ok_lookup (d d' : gmap string value) k :
  _preprocess d = Ok d' ->
  d' !! k =
  match d !! k with
  | Some v =>
      if decide (v = VStr OWT) then None
      else match preprocess_value v with
           | Ok pv => Some pv
           | Raise _ => None
           end
  | None => None
  end.
Proof.
  unfold _preprocess.
  destruct (mapR _ _) as [l'|] eqn:Hm; [|done]. intros [= <-].
  apply mapR_Forall2 in Hm.
  set (l := map_to_list (filter (fun kv => kv.2 <> VStr OWT) d)) in *.
  assert (Hfst : l'.*1 = l.*1).
  { clear -Hm. induction Hm as [|[k1 v1] [k2 pv] l1 l2 Hh _ IH]; [done|].
    simpl. destruct (preprocess_value v1); [|done]. simpl in Hh.
    injection Hh as <- <-. by f_equal. }
  assert (Hnd : NoDup l'.*1) by (rewrite Hfst; apply NoDup_fst_map_to_list).
  assert (Hin : forall k v, (k, v) ∈ l <-> d !! k = Some v /\ v <> VStr OWT).
  { intros k0 v0. unfold l.
    rewrite elem_of_map_to_list, map_lookup_filter_Some. naive_solver. }
  destruct (d !! k) as [v|] eqn:Hk.
  - destruct (decide (v = VStr OWT)) as [->|Hne].
    + apply not_elem_of_list_to_map. rewrite Hfst.
      intros ((k0 & v0) & -> & Hv0)%list_elem_of_fmap.
      apply Hin in Hv0 as [Hv0 ?]. cbn [fst] in *. congruence.
    + assert (Hkv : (k, v) ∈ l) by (by apply Hin).
      apply list_elem_of_lookup_1 in Hkv as [i Hi].
      destruct (Forall2_lookup_l _ _ _ _ _ Hm Hi) as ([k' pv] & Hi' & Hf).
      simpl in Hf. destruct (preprocess_value v) as [pv0|]; [|done].
      simpl in Hf. injection Hf as <- <-.
      apply elem_of_list_to_map; [done|]. by eapply list_elem_of_lookup_2.
  - apply not_elem_of_list_to_map. rewrite Hfst.
    intros ((k0 & v0) & -> & Hv0)%list_elem_of_fmap.
    apply Hin in Hv0 as [Hv0 ?]. cbn [fst] in *. congruence.
Qed.

Lemma preprocess_Ok_entry (d d' : gmap string value) k v :
  _preprocess d = Ok d' -> d !! k = Some v -> v <> VStr OWT ->
  exists pv, preprocess_value v = Ok pv /\ d' !! k = Some pv.
Proof.
  intros Hd Hk Hne. unfold _preprocess in Hd.
  destruct (mapR _ _) as [l'|] eqn:Hm; [|done].
  assert (Hin : (k, v) ∈ map_to_list (filter (fun kv => kv.2 <> VStr OWT) d))
    by (by rewrite elem_of_map_to_list, map_lookup_filter_Some).
  apply mapR_Forall2 in Hm as HF. apply list_elem_of_lookup_1 in Hin as [i Hi]. destruct (Forall2_lookup_l _ _ _ _ _ HF Hi) as ([k' pv] & _ & Hf). simpl in Hf.
  destruct (preprocess_value v) as [pv0|] eqn:Hpv; [|done].
  exists pv0. split; [done|].
  assert (Hd' : _preprocess d = Ok d')
    by (unfold _preprocess; by rewrite Hm).
  rewrite (preprocess_Ok_lookup _ _ k Hd'), Hk, Hpv.
  by destruct (decide (v = VStr OWT)).
Qed.

Lemma preprocess_Ok_None (d d' : gmap string value) k :
  _preprocess d = Ok d' -> d !! k = None -> d' !! k = None.
Proof. intros Hd Hk. by rewrite (preprocess_Ok_lookup _ _ k Hd), Hk. Qed.

Lemma preprocess_raises (d : gmap string value) e :
  _preprocess d = Raise e -> e = MatchError.
Proof.
  unfold _preprocess. destruct (mapR _ _) as [l'|e'] eqn:Hm; [done|].
  intros [= ->]. apply mapR_raises in Hm as ([k v] & _ & Hf).
  destruct (preprocess_value v) as [pv|e'] eqn:Hpv; [done|].
  injection Hf as ->. by eapply preprocess_value_raises.
Qed.

Lemma preprocess_returns (d : gmap string value) :
  (forall k v, d !! k = Some v -> v <> VStr OWT ->
     exists pv, preprocess_value v = Ok pv) ->
  exists d', _preprocess d = Ok d'.
Proof.
  intros Hall. unfold _preprocess.
  destruct (mapR_returns
              (fun '(k, v) => pair k <$> preprocess_value v)
              (map_to_list (filter (fun kv => kv.2 <> VStr OWT) d)))
    as [l' ->]; [|by eexists].
  intros [k v] [Hk Hne]%elem_of_map_to_list%map_lookup_filter_Some.
  destruct (Hall k v Hk Hne) as [pv ->]. by eexists.
Qed.

Lemma preprocess_singleton k v :
  _preprocess {[ k := v ]} =
  if decide (v = VStr OWT) then Ok ∅
  else (fun pv => {[ k := pv ]}) <$> preprocess_value v.
Proof.
  unfold _preprocess. rewrite map_filter_singleton. simpl.
  destruct (decide (v = VStr OWT)) as [->|Hne].
  - rewrite decide_False by auto. by rewrite map_to_list_empty.
  - rewrite decide_True by done. rewrite map_to_list_singleton. cbn [mapR].
    by destruct (preprocess_value v) as [pv|].
Qed.

(** The conflicts of an inform with a single key. *)
Lemma get_conflict_keys_singleton k v context :
  get_conflict_keys {[ k := v ]} context =
  if decide (v = VStr OWT) then _ ← _preprocess context; Ok ∅
  else pv ← preprocess_value v;
       context ← _preprocess context;
       conflicts_of_item context (k, pv).
Proof.
  unfold get_conflict_keys. rewrite preprocess_singleton.
  destruct (decide (v = VStr OWT)).
  - simpl. destruct (_preprocess context); simpl; [|done].
    by rewrite map_to_list_empty.
  - destruct (preprocess_value v) as [pv|];
      cbn [mbind result_bind fmap result_fmap]; [|done].
    destruct (_preprocess context) as [c|];
      cbn [mbind result_bind fmap result_fmap]; [|done].
    rewrite map_to_list_singleton. cbn [mapR].
    destruct (conflicts_of_item c (k, pv)) as [X|e];
      cbn [mbind result_bind fmap result_fmap]; [|done].
    f_equal. set_solver.
Qed.

(** A string of digits that [int] does not read makes the comparison
    raise, whatever the context: [_preprocess] converts the informs
    before anything is compared.  CPython has such strings: [isdigit]
    accepts the superscript two, which [int] refuses, and [int] refuses
    more than 4300 digits. *)
Lemma get_conflict_keys_unreadable_digits k s context :
  s <> OWT -> str_isdigit s = true -> str_int s = None ->
  get_conflict_keys {[ k := VStr s ]} context = Raise MatchError.
Proof.
  intros Hne Hd Hi. rewrite get_conflict_keys_singleton.
  rewrite decide_False by congruence.
  unfold preprocess_value. by rewrite Hd, Hi.
Qed.

(** The same for an unreadable field of the context. *)
Lemma get_conflict_keys_unreadable_context inform k s context :
  context !! k = Some (VStr s) ->
  s <> OWT -> str_isdigit s = true -> str_int s = None ->
  get_conflict_keys inform context = Raise MatchError.
Proof.
  intros Hk Hne Hd Hi. unfold get_conflict_keys.
  destruct (_preprocess inform) as [i|e] eqn:Hinf;
    cbn [mbind result_bind fmap result_fmap];
    [|by rewrite (preprocess_raises _ _ Hinf)].
  destruct (_preprocess context) as [c|e] eqn:Hc;
    cbn [mbind result_bind fmap result_fmap];
    [|by rewrite (preprocess_raises _ _ Hc)].
  destruct (preprocess_Ok_entry _ _ k (VStr s) Hc Hk) as (pv & Hpv & _);
    [congruence|].
  unfold preprocess_value in Hpv. by rewrite Hd, Hi in Hpv.
Qed.

Lemma match_lambda_absent key context f v :
  context !! key = None -> _match_lambda key context f v = Ok true.
Proof. unfold _match_lambda. by intros ->. Qed.

Lemma match_lambda_present key context f v x :
  context !! key = Some x -> _match_lambda key context f v = f x v.
Proof. unfold _match_lambda. by intros ->. Qed.

Lemma document_key doc k :
  is_document doc -> k ∉ DOCUMENT_KEYS -> doc !! k = None.
Proof.
  intros Hdoc Hk. apply not_elem_of_dom. intros Hin.
  apply Hdoc in Hin. by apply elem_of_list_to_set in Hin.
Qed.

Lemma constraining_not_document K ck f :
  assoc K CONSTRAINING_KEYS_MAPS = Some (ck, f) -> K ∉ DOCUMENT_KEYS.
Proof.
  unfold CONSTRAINING_KEYS_MAPS; simpl.
  repeat case_bool_decide; intros [=]; subst;
    (intros Hin; by apply (bool_decide_pack _) in Hin).
Qed.

Lemma constraining_keys_inv K ck f :
  assoc K CONSTRAINING_KEYS_MAPS = Some (ck, f) ->
  (K = "min_num_citations" /\ ck = "num_citations")
  \/ (K = "min_publication_year" /\ ck = "publication_year")
  \/ (K = "max_publication_year" /\ ck = "publication_year").
Proof.
  unfold CONSTRAINING_KEYS_MAPS; simpl.
  repeat case_bool_decide; intros [= <- <-] || intros [=]; subst; auto.
Qed.

(** The conflicts of a range-constraining item with a preprocessed
    context that has neither the constrained key nor the key itself. *)
Lemma range_item_absent K ck f pv (context : gmap string value) :
  assoc K CONSTRAINING_KEYS_MAPS = Some (ck, f) ->
  context !! ck = None -> context !! K = None ->
  conflicts_of_item context (K, pv) = Ok ∅.
Proof.
  intros HK Hck HKc. unfold conflicts_of_item. rewrite HK. simpl.
  rewrite (match_lambda_absent ck) by done.
  rewrite (match_lambda_absent K) by done.
  apply constraining_keys_inv in HK as [[-> _]|[[-> _]|[-> _]]];
    simpl; f_equal; set_solver.
Qed.

(** C7. Range constraints are one-directional.  For a document in which
    the constrained field is absent, an inform of a range-constraining key
    ([min_num_citations], [min_publication_year], [max_publication_year]),
    whatever its value, never yields a conflict key: [get_conflict_keys]
    returns the empty set whenever the inform and the document can be
    preprocessed, and otherwise raises the exception of [_preprocess]
    (a string of digits that [int] does not convert).  In particular
    [{min_num_citations: 5}] has no conflict with a document that lacks
    [num_citations], and its conflict set with a document whose
    [num_citations] is 3 is [{num_citations}], for every such document
    that can be preprocessed. *)
Theorem range_constraints_one_directional :
  (forall K ck f v doc,
      assoc K CONSTRAINING_KEYS_MAPS = Some (ck, f) ->
      is_document doc ->
      doc !! ck = None ->
      match _preprocess {[ K := v ]}, _preprocess doc with
      | Ok _, Ok _ => get_conflict_keys {[ K := v ]} doc = Ok ∅
      | _, _ => get_conflict_keys {[ K := v ]} doc = Raise MatchError
      end)
  /\ (forall doc,
        is_document doc ->
        doc !! "num_citations" = None ->
        match _preprocess doc with
        | Ok _ =>
            get_conflict_keys {[ "min_num_citations" := VInt 5 ]} doc = Ok ∅
        | Raise _ =>
            get_conflict_keys {[ "min_num_citations" := VInt 5 ]} doc
            = Raise MatchError
        end)
  /\ (forall doc,
        is_document doc ->
        doc !! "num_citations" = Some (VInt 3) ->
        match _preprocess doc with
        | Ok _ =>
            get_conflict_keys {[ "min_num_citations" := VInt 5 ]} doc
            = Ok {[ "num_citations" ]}
        | Raise _ =>
            get_conflict_keys {[ "min_num_citations" := VInt 5 ]} doc
            = Raise MatchError
        end).
Proof.
  assert (Hgen : forall K ck f v doc,
      assoc K CONSTRAINING_KEYS_MAPS = Some (ck, f) ->
      is_document doc ->
      doc !! ck = None ->
      match _preprocess {[ K := v ]}, _preprocess doc with
      | Ok _, Ok _ => get_conflict_keys {[ K := v ]} doc = Ok ∅
      | _, _ => get_conflict_keys {[ K := v ]} doc = Raise MatchError
      end).
  { intros K ck f v doc HK Hdoc Habs.
    assert (HKdoc : doc !! K = None)
      by (eapply document_key, constraining_not_document; eauto).
    rewrite get_conflict_keys_singleton, preprocess_singleton.
    destruct (decide (v = VStr OWT)) as [Hv|Hv].
    - destruct (_preprocess doc) as [c|e] eqn:Hc; simpl; [done|].
      by rewrite (preprocess_raises _ _ Hc).
    - destruct (preprocess_value v) as [pv|e] eqn:Hpv; simpl.
      + destruct (_preprocess doc) as [c|e] eqn:Hc; simpl.
        * apply (range_item_absent K ck f); [done|..];
            by eapply preprocess_Ok_None.
        * by rewrite (preprocess_raises _ _ Hc).
      + by rewrite (preprocess_value_raises _ _ Hpv). }
  split; [exact Hgen|]. split.
  - intros doc Hdoc Habs.
    pose proof (Hgen "min_num_citations" "num_citations" int_ge (VInt 5)
                  doc eq_refl Hdoc Habs) as H.
    rewrite preprocess_singleton in H. simpl in H.
    by destruct (_preprocess doc).
  - intros doc Hdoc H3.
    rewrite get_conflict_keys_singleton.
    destruct (decide (VInt 5 = VStr OWT)) as [Hv|Hv]; [done|]. simpl.
    destruct (_preprocess doc) as [c|e] eqn:Hc; simpl;
      [|by rewrite (preprocess_raises _ _ Hc)].
    assert (HKdoc : doc !! "min_num_citations" = None)
      by (by eapply document_key, (constraining_not_document _ _ int_ge)).
    unfold conflicts_of_item. simpl.
    rewrite (match_lambda_present "num_citations" _ _ _ (VInt 3))
      by by rewrite (preprocess_Ok_lookup _ _ _ Hc), H3.
    rewrite (match_lambda_absent "min_num_citations")
      by by eapply preprocess_Ok_None.
    simpl. f_equal; set_solver.
Qed.

End match_facts.

(** On ASCII text: a number of 4301 digits is refused by [int], in an
    inform and in a field of the context. *)
Example unreadable_digits_ex :
  let s := string_of_list_ascii (repeat "1"%char 4301) in
  let s' := string_of_list_ascii (repeat "1"%char 4300) in
  get_conflict_keys {[ "min_num_citations" := VStr s ]} ∅
  = Raise MatchError
  /\ get_conflict_keys {[ "min_num_citations" := VInt 5 ]}
       {[ "document_title" := VStr s ]} = Raise MatchError
  /\ get_conflict_keys {[ "min_num_citations" := VStr s' ]} ∅ = Ok ∅.
Proof.
  intros s s'. split; [|split].
  - apply get_conflict_keys_unreadable_digits; by vm_compute.
  - apply (get_conflict_keys_unreadable_context _ "document_title" s);
      [by rewrite lookup_singleton_eq|by vm_compute..].
  - rewrite get_conflict_keys_singleton. by vm_compute.
Qed.

(** The one-directional range constraint on two concrete documents: one
    without [num_citations] and one whose [num_citations] is 3. *)
Lemma range_constraints_one_directional_witness :
  let d1 : gmap string value :=
    <["doi" := VStr "D1"]> {[ "authors" := VStr "Alice Smith" ]} in
  let d2 : gmap string value := <["num_citations" := VInt 3]> d1 in
  get_conflict_keys {[ "min_num_citations" := VInt 5 ]} d1 = Ok ∅
  /\ get_conflict_keys {[ "min_num_citations" := VInt 5 ]} d2
     = Ok {[ "num_citations" ]}.
Proof.
  intros d1 d2.
  destruct (range_constraints_one_directional (ops := ascii_ops))
    as (_ & Habsent & Hthree).
  split.
  - assert (Hdoc : is_document d1)
      by (apply (bool_decide_unpack _); vm_compute; reflexivity).
    specialize (Habsent d1 Hdoc eq_refl).
    destruct (_preprocess d1) as [c|e] eqn:Hc; [exact Habsent|].
    vm_compute in Hc. discriminate Hc.
  - assert (Hdoc : is_document d2)
      by (apply (bool_decide_unpack _); vm_compute; reflexivity).
    specialize (Hthree d2 Hdoc eq_refl).
    destruct (_preprocess d2) as [c|e] eqn:Hc; [exact Hthree|].
    vm_compute in Hc. discriminate Hc.
Defined.
(* ===================================================================== *)
(** * KBManager: the caches are transparent *)
(* ===================================================================== *)

Create HintDb raises.

Module KBManagerProofs.
Import KBManager KBSpec.
Section Proofs.
Context `{ops : PyStrOps}.

Lemma pydict_get_set_eq `{EqDecision K} {V} (d : PyDict.t K V) k v :
  PyDict.get (PyDict.set k v d) k = Some v.
Proof.
  unfold PyDict.set.
  change (PyDict.get ((k, v) :: d) k)
    with (if decide (k = k) then Some v else PyDict.get d k).
  by rewrite decide_True.
Qed.

Lemma pydict_get_set_ne `{EqDecision K} {V} (d : PyDict.t K V) k k' v :
  k <> k' -> PyDict.get (PyDict.set k v d) k' = PyDict.get d k'.
Proof.
  intros Hne. unfold PyDict.set.
  change (PyDict.get ((k, v) :: d) k')
    with (if decide (k = k') then Some v else PyDict.get d k').
  by rewrite decide_False.
Qed.

Lemma cache_ok_init kb : cache_ok (KBManager.init kb).
Proof. by repeat split. Qed.

(** Unfolding of the monadic plumbing. *)
Ltac unfold_st :=
  unfold mbind, St_bind, mret, St_ret, get, put, modify, lift, raise in *.

Lemma cache_ok_set_documents m c docs :
  cache_ok m ->
  docs_without_conflict c (_kb m) = Ok docs ->
  cache_ok (set_cache_documents c docs m).
Proof.
  intros (Hd & Hv & Hc) Hdocs. split; [|split]; simpl; [|done|done].
  intros c' docs'. destruct (decide (c = c')) as [<-|Hne].
  - rewrite pydict_get_set_eq. by intros [= <-].
  - rewrite pydict_get_set_ne by done. apply Hd.
Qed.


Lemma cache_ok_set_count m c d :
  cache_ok m ->
  count_for c (_kb m) = Ok d ->
  cache_ok (set_cache_count c d m).
Proof.
  intros (Hd & Hv & Hc) Hcount. split; [|split]; simpl; [done|done|].
  intros c' d'. destruct (decide (c = c')) as [<-|Hne].
  - rewrite pydict_get_set_eq. by intros [= <-].
  - rewrite pydict_get_set_ne by done. apply Hc.
Qed.

Lemma find_matching_docs_computes c :
  computes (find_matching_docs c) (docs_without_conflict c).
Proof.
  intros m Hok. unfold find_matching_docs. unfold_st.
  destruct (PyDict.get (cache_documents (_cache m)) c) as [cached|] eqn:Hc;
    simpl.
  - destruct cached as [|d cached].
    + destruct (docs_without_conflict c (_kb m)) as [docs|e] eqn:E; [|done].
      eexists; split; [done|]. split; [|done].
      by apply cache_ok_set_documents.
    + pose proof Hok as (Hd & _). rewrite (Hd _ _ Hc) by done.
      eexists; split; [done|]. by split.
  - destruct (docs_without_conflict c (_kb m)) as [docs|e] eqn:E; [|done].
    eexists; split; [done|]. split; [|done].
    by apply cache_ok_set_documents.
Qed.

Lemma computes_ret {A} (a : A) : computes (mret a) (fun _ => Ok a).
Proof. intros m Hok. exists m. by unfold_st. Qed.

Lemma computes_bind {A B} (c : St t A) pure (k : A -> St t B) kp :
  computes c pure ->
  (forall a, computes (k a) (kp a)) ->
  computes (c ≫= k) (fun kb => a ← pure kb; kp a kb).
Proof.
  intros Hc Hk m Hok. specialize (Hc m Hok). unfold_st.
  destruct (pure (_kb m)) as [a|e]; simpl.
  - destruct Hc as (m1 & -> & Hok1 & Hkb1).
    specialize (Hk a m1 Hok1). rewrite Hkb1 in Hk.
    destruct (kp a (_kb m)) as [b|e].
    + destruct Hk as (m2 & -> & Hok2 & Hkb2).
      by exists m2.
    + done.
  - by rewrite Hc.
Qed.

Lemma computes_kb_size : computes (m ← get; mret (length (_kb m)))
                           (fun kb => Ok (length kb)).
Proof. intros m Hok. exists m. by unfold_st. Qed.

Lemma count_matches_loop_computes items d :
  computes (count_matches_loop items d)
           (fun kb => count_loop kb items d).
Proof.
  revert d. induction items as [|[k v] items IH]; intros d.
  - apply computes_ret.
  - cbn [count_matches_loop count_loop].
    apply (computes_bind _ (fun kb => single_count kb k v)
             _ (fun n kb => count_loop kb items (<[k := n]> d))).
    + unfold single_count. case_bool_decide.
      * apply computes_kb_size.
      * intros m Hok.
        pose proof (find_matching_docs_computes {[ k := v ]} m Hok) as Hf.
        unfold_st.
        destruct (docs_without_conflict {[ k := v ]} (_kb m)) as [docs|e];
          simpl.
        -- destruct Hf as (m' & -> & ? & ?). by exists m'.
        -- by rewrite Hf.
    + intros n. apply IH.
Qed.

Lemma count_matches_computes c :
  computes (count_matches c) (count_for c).
Proof.
  intros m Hok. unfold count_matches.
  change (m0 ← get;
          (if bool_decide
                (default ∅ (PyDict.get (cache_count (_cache m0)) c) = ∅)
           then _ else _)) with
    ((fun m0 : t =>
        (if bool_decide
              (default ∅ (PyDict.get (cache_count (_cache m0)) c) = ∅)
         then
           docs ← find_matching_docs c;
           match_dict ← count_matches_loop (map_to_list c)
                          {[ MA := length docs ]};
           _ ← modify (set_cache_count c match_dict);
           mret match_dict
         else mret (default ∅ (PyDict.get (cache_count (_cache m0)) c)))
          m0)).
  cbv beta.
  case_bool_decide as Hcached.
  - (* not cached: compute and store *)
    pose proof (find_matching_docs_computes c m Hok) as Hf.
    unfold count_for. unfold_st.
    destruct (docs_without_conflict c (_kb m)) as [docs|e] eqn:Hdocs; simpl.
    + destruct Hf as (m1 & -> & Hok1 & Hkb1).
      pose proof (count_matches_loop_computes (map_to_list c)
                    {[ MA := length docs ]} m1 Hok1) as Hl.
      rewrite Hkb1 in Hl.
      destruct (count_loop (_kb m) (map_to_list c) {[ MA := length docs ]})
        as [d|e] eqn:Hd.
      * destruct Hl as (m2 & -> & Hok2 & Hkb2).
        eexists; split; [done|]. split; [|simpl; congruence].
        apply cache_ok_set_count; [done|].
        rewrite Hkb2. unfold count_for. by rewrite Hdocs.
      * by rewrite Hl.
    + by rewrite Hf.
  - (* cached *)
    destruct (PyDict.get (cache_count (_cache m)) c) as [d|] eqn:Hc; [|done].
    simpl in *. pose proof Hok as (_ & _ & Hcount).
    rewrite (Hcount _ _ Hc Hcached).
    exists m. by unfold_st.
Qed.

Lemma mapR_Ok_elem {A B} (f : A -> result B) l ys x :
  mapR f l = Ok ys -> x ∈ l -> exists y, f x = Ok y.
Proof.
  revert ys. induction l as [|a l IH]; intros ys Hm Hx; [by inversion Hx|].
  simpl in Hm. destruct (f a) as [y|] eqn:Ha; [|done]. simpl in Hm.
  destruct (mapR f l) as [ys'|] eqn:Hl; [|done].
  apply elem_of_cons in Hx as [->|Hx]; eauto.
Qed.

Lemma mapR_all_Ok {A B} (f : A -> result B) l :
  (forall x, x ∈ l -> exists y, f x = Ok y) -> exists ys, mapR f l = Ok ys.
Proof.
  induction l as [|a l IH]; intros H; [by eexists|].
  destruct (H a) as [y Hy]; [by left|].
  destruct IH as [ys Hys]; [intros x Hx; apply H; by right|].
  exists (y :: ys). simpl. by rewrite Hy, Hys.
Qed.

(** Matching the whole inform succeeds only if matching each of its
    entries alone does. *)
Lemma get_conflict_keys_entry c doc X k v :
  get_conflict_keys c doc = Ok X -> c !! k = Some v ->
  exists Y, get_conflict_keys {[ k := v ]} doc = Ok Y /\ Y ⊆ X.
Proof.
  intros Hc Hk. rewrite get_conflict_keys_singleton.
  unfold get_conflict_keys in Hc.
  destruct (_preprocess c) as [pc|] eqn:Hpc; [|done].
  cbn [mbind result_bind] in Hc.
  destruct (_preprocess doc) as [pd|] eqn:Hpd; [|done].
  cbn [mbind result_bind] in Hc |- *.
  destruct (decide (v = VStr OWT)) as [->|Hne];
    [exists ∅; split; [done|set_solver]|].
  destruct (preprocess_Ok_entry _ _ _ _ Hpc Hk Hne) as (pv & -> & Hpv).
  cbn [mbind result_bind].
  destruct (mapR (conflicts_of_item pd) (map_to_list pc)) as [ys|] eqn:Hm;
    [|done].
  injection Hc as <-.
  assert (Hin : (k, pv) ∈ map_to_list pc) by (by apply elem_of_map_to_list).
  apply mapR_Forall2 in Hm. apply list_elem_of_lookup_1 in Hin as [i Hi].
  destruct (Forall2_lookup_l _ _ _ _ _ Hm Hi) as (Y & HY & ->).
  exists Y. split; [done|]. intros x Hx. apply elem_of_union_list.
  exists Y. split; [by eapply list_elem_of_lookup_2|done].
Qed.

Lemma docs_without_conflict_entry c kb docs k v :
  docs_without_conflict c kb = Ok docs -> c !! k = Some v ->
  exists docs', docs_without_conflict {[ k := v ]} kb = Ok docs'.
Proof.
  revert docs. induction kb as [|doc kb IH]; intros docs Hd Hk;
    [by eexists|].
  simpl in Hd.
  destruct (get_conflict_keys c doc) as [X|] eqn:HX; [|done]. simpl in Hd.
  destruct (docs_without_conflict c kb) as [rest|] eqn:Hr; [|done].
  destruct (get_conflict_keys_entry _ _ _ _ _ HX Hk) as (Y & HY & _).
  destruct (IH _ eq_refl Hk) as [rest' Hrest'].
  simpl. rewrite HY, Hrest'. simpl. by eexists.
Qed.

Lemma count_loop_total kb items d :
  (forall k v, (k, v) ∈ items -> exists n, single_count kb k v = Ok n) ->
  exists d', count_loop kb items d = Ok d'.
Proof.
  revert d. induction items as [|[k v] items IH]; intros d H; [by eexists|].
  destruct (H k v) as [n Hn]; [by left|].
  cbn [count_loop]. rewrite Hn. simpl.
  apply IH. intros k' v' Hin. apply H. by right.
Qed.

Lemma count_loop_lookup kb items d d' :
  count_loop kb items d = Ok d' ->
  NoDup items.*1 ->
  (forall k, k ∉ items.*1 -> d' !! k = d !! k)
  /\ (forall k v, (k, v) ∈ items ->
        exists n, single_count kb k v = Ok n /\ d' !! k = Some n).
Proof.
  revert d. induction items as [|[k v] items IH]; intros d Hl Hnd.
  - injection Hl as <-. split; [done|]. intros k v Hin. by inversion Hin.
  - cbn [count_loop] in Hl.
    destruct (single_count kb k v) as [n|] eqn:Hn; [|done]. simpl in Hl.
    rewrite fmap_cons in Hnd. apply NoDup_cons in Hnd as [Hk Hnd].
    change ((k, v).1) with k in Hk.
    destruct (IH _ Hl Hnd) as [Hout Hin]. split.
    + intros k' Hk'. rewrite fmap_cons in Hk'.
      apply not_elem_of_cons in Hk' as [Hne Hk'].
      rewrite (Hout _ Hk'). by rewrite lookup_insert_ne.
    + intros k' v' [[= -> ->]|Hin']%elem_of_cons.
      * exists n. split; [done|]. rewrite (Hout _ Hk).
        by rewrite lookup_insert_eq.
      * by apply Hin.
Qed.

Lemma single_count_find k v m n :
  cache_ok m -> single_count (_kb m) k v = Ok n ->
  (v = VStr OWT /\ n = get_kb_size m)
  \/ (v <> VStr OWT /\ exists docs m',
        find_matching_docs {[ k := v ]} m = Ok (docs, m')
        /\ n = length docs).
Proof.
  intros Hok. unfold single_count. case_bool_decide as Hv.
  - intros [= <-]. by left.
  - intros Hn. right. split; [done|].
    pose proof (find_matching_docs_computes {[ k := v ]} m Hok) as Hf.
    destruct (docs_without_conflict {[ k := v ]} (_kb m)) as [docs|];
      [|done].
    injection Hn as <-. destruct Hf as (m' & Hf & _). eauto.
Qed.

(** C6. On a manager whose cache is coherent (as it is from construction
    on) and for constraints that do not use the synthetic key, a returning
    [count_matches] leaves the knowledge base as it was and the cache
    coherent, and its dictionary maps the matches-all key to the length of
    [find_matching_docs(constraints)] (the documents of the knowledge base
    without conflict with the constraints, the list the method returns
    before and after the call), every key whose value is the wildcard to
    the size of the knowledge base, every other key to the number of
    documents matching that constraint alone, and has no other key.  The
    call returns whenever matching the constraints against the documents
    raises no exception. *)
Theorem count_matches_spec m c :
  cache_ok m ->
  c !! MA = None ->
  ((exists docs, docs_without_conflict c (_kb m) = Ok docs) ->
   exists d m', count_matches c m = Ok (d, m'))
  /\ forall d m', count_matches c m = Ok (d, m') ->
       cache_ok m' /\ _kb m' = _kb m
       /\ (exists docs m1 m2,
             docs_without_conflict c (_kb m) = Ok docs
             /\ find_matching_docs c m = Ok (docs, m1)
             /\ find_matching_docs c m' = Ok (docs, m2)
             /\ d !! MA = Some (length docs))
       /\ (forall k, c !! k = Some (VStr OWT) ->
             d !! k = Some (length (_kb m)))
       /\ (forall k v, c !! k = Some v -> v <> VStr OWT ->
             exists docs m1 m2,
               docs_without_conflict {[ k := v ]} (_kb m) = Ok docs
               /\ find_matching_docs {[ k := v ]} m = Ok (docs, m1)
               /\ find_matching_docs {[ k := v ]} m' = Ok (docs, m2)
               /\ d !! k = Some (length docs))
       /\ dom d = {[ MA ]} ∪ dom c.
Proof.
  intros Hok HMA.
  pose proof (count_matches_computes c m Hok) as Hcm.
  split.
  - intros [docs Hdocs].
    assert (exists d, count_for c (_kb m) = Ok d) as [d Hd].
    { unfold count_for. rewrite Hdocs. simpl.
      apply count_loop_total. intros k v Hin%elem_of_map_to_list.
      unfold single_count. case_bool_decide; [by eexists|].
      destruct (docs_without_conflict_entry _ _ _ _ _ Hdocs Hin)
        as [docs' ->]. by eexists. }
    rewrite Hd in Hcm. destruct Hcm as (m' & ? & _). eauto.
  - intros d m' Hrun.
    destruct (count_for c (_kb m)) as [d0|] eqn:Hd0;
      [|by rewrite Hcm in Hrun].
    destruct Hcm as (m1 & Hrun1 & Hok' & Hkb).
    rewrite Hrun in Hrun1. injection Hrun1 as <- <-.
    unfold count_for in Hd0.
    destruct (docs_without_conflict c (_kb m)) as [docs|] eqn:Hdocs;
      [|done].
    simpl in Hd0.
    destruct (count_loop_lookup _ _ _ _ Hd0) as [Hout Hin].
    { apply NoDup_fst_map_to_list. }
    assert (HMAout : MA ∉ (map_to_list c).*1).
    { intros [[k v] [Hk Hkv]]%list_elem_of_fmap. simpl in Hk. subst k.
      apply elem_of_map_to_list in Hkv. congruence. }
    assert (Hboth : forall c0 docs0,
      docs_without_conflict c0 (_kb m) = Ok docs0 ->
      exists m1 m2, find_matching_docs c0 m = Ok (docs0, m1)
                    /\ find_matching_docs c0 m' = Ok (docs0, m2)).
    { intros c0 docs0 Hc0.
      pose proof (find_matching_docs_computes c0 m Hok) as Hf.
      pose proof (find_matching_docs_computes c0 m' Hok') as Hf'.
      rewrite Hkb in Hf'. rewrite Hc0 in Hf, Hf'.
      destruct Hf as (m1 & Hf & _), Hf' as (m2 & Hf' & _). eauto. }
    split; [done|]. split; [done|]. split; [|split; [|split]].
    + destruct (Hboth _ _ Hdocs) as (m1 & m2 & Hf & Hf').
      exists docs, m1, m2. do 3 (split; [done|]).
      by rewrite (Hout _ HMAout), lookup_singleton_eq.
    + intros k Hk.
      destruct (Hin k (VStr OWT)) as (n & Hn & ->);
        [by apply elem_of_map_to_list|].
      unfold single_count in Hn.
      rewrite bool_decide_eq_true_2 in Hn by done.
      by injection Hn as <-.
    + intros k v Hk Hv.
      destruct (Hin k v) as (n & Hn & Hlk); [by apply elem_of_map_to_list|].
      unfold single_count in Hn.
      rewrite bool_decide_eq_false_2 in Hn by done.
      destruct (docs_without_conflict {[ k := v ]} (_kb m))
        as [docs'|] eqn:Hdocs'; [|done].
      injection Hn as <-.
      destruct (Hboth _ _ Hdocs') as (m1 & m2 & Hf & Hf').
      by exists docs', m1, m2.
    + apply set_eq. intros k. rewrite elem_of_union, elem_of_singleton.
      rewrite !elem_of_dom.
      destruct (decide (k ∈ (map_to_list c).*1)) as [Hkin|Hkout].
      * apply list_elem_of_fmap in Hkin as [[k' v] [-> Hkv]]. simpl.
        destruct (Hin _ _ Hkv) as (n & _ & ->).
        apply elem_of_map_to_list in Hkv. rewrite Hkv.
        split; eauto.
      * rewrite (Hout _ Hkout).
        assert (c !! k = None) as ->.
        { destruct (c !! k) as [v|] eqn:E; [|done].
          exfalso. apply Hkout. apply list_elem_of_fmap.
          exists (k, v). split; [done|]. by apply elem_of_map_to_list. }
        destruct (decide (k = MA)) as [->|Hne].
        -- rewrite lookup_singleton_eq. split; eauto.
        -- rewrite lookup_singleton_ne by done.
           split; [by intros [? ?]|]. intros [?|[? ?]]; done.
Qed.

Lemma raises_only_Ok {A} (a : A) : raises_only_MatchError (Ok a).
Proof. by intros e. Qed.

Lemma raises_only_bind {A B} (r : result A) (k : A -> result B) :
  raises_only_MatchError r ->
  (forall a, raises_only_MatchError (k a)) ->
  raises_only_MatchError (r ≫= k).
Proof.
  intros Hr Hk e. destruct r as [a|e']; simpl.
  - apply Hk.
  - intros [= <-]. by apply Hr.
Qed.

Lemma raises_only_fmap {A B} (f : A -> B) (r : result A) :
  raises_only_MatchError r -> raises_only_MatchError (f <$> r).
Proof. intros Hr e. destruct r as [a|e']; simpl; [done|]. intros [= <-]. by apply Hr. Qed.

Lemma raises_only_mapR {A B} (f : A -> result B) l :
  (forall x, raises_only_MatchError (f x)) ->
  raises_only_MatchError (mapR f l).
Proof.
  intros Hf. induction l as [|x l IH]; simpl; [apply raises_only_Ok|].
  apply raises_only_bind; [apply Hf|]. intros y.
  apply raises_only_bind; [apply IH|]. intros ys. apply raises_only_Ok.
Qed.

Lemma raises_only_py_int x : raises_only_MatchError (py_int x).
Proof.
  destruct x as [n|s]; simpl; [apply raises_only_Ok|].
  destruct (str_int s); [apply raises_only_Ok|]. by intros e [= <-].
Qed.

Lemma raises_only_int_ge a b : raises_only_MatchError (int_ge a b).
Proof.
  unfold int_ge. apply raises_only_bind; [apply raises_only_py_int|].
  intros x. apply raises_only_bind; [apply raises_only_py_int|].
  intros y. apply raises_only_Ok.
Qed.

Lemma raises_only_int_le a b : raises_only_MatchError (int_le a b).
Proof.
  unfold int_le. apply raises_only_bind; [apply raises_only_py_int|].
  intros x. apply raises_only_bind; [apply raises_only_py_int|].
  intros y. apply raises_only_Ok.
Qed.

Lemma raises_only_match_lambda key context (f : cmp_fun) v :
  (forall a b, raises_only_MatchError (f a b)) ->
  raises_only_MatchError (_match_lambda key context f v).
Proof.
  intros Hf. unfold _match_lambda.
  destruct (context !! key); [apply Hf|apply raises_only_Ok].
Qed.

Lemma raises_only_find_words context key v :
  raises_only_MatchError (_find_words context key v).
Proof.
  unfold _find_words. destruct (context !! key) as [target|];
    [|apply raises_only_Ok].
  destruct v as [n|s]; [by intros e [= <-]|].
  destruct (str_split s); [apply raises_only_Ok|].
  destruct target; [by intros e [= <-]|apply raises_only_Ok].
Qed.

Lemma raises_only_or_else a b :
  raises_only_MatchError a -> raises_only_MatchError b ->
  raises_only_MatchError (or_else a b).
Proof.
  intros Ha Hb. unfold or_else. apply raises_only_bind; [done|].
  intros []; [apply raises_only_Ok|done].
Qed.

Local Hint Resolve raises_only_Ok raises_only_fmap raises_only_match_lambda
  raises_only_int_ge raises_only_int_le raises_only_find_words
  raises_only_or_else : raises.

Lemma CONSTRAINED_KEYS_MAPS_eq :
  CONSTRAINED_KEYS_MAPS
  = [ ("num_citations", [("min_num_citations", int_ge)]);
      ("publication_year",
       [("min_publication_year", int_ge);
        ("max_publication_year", int_le)]) ].
Proof. reflexivity. Qed.

Lemma raises_only_conflicts_of_item context item :
  raises_only_MatchError (conflicts_of_item context item).
Proof.
  destruct item as [k v]. unfold conflicts_of_item.
  apply raises_only_bind.
  { unfold CONSTRAINING_KEYS_MAPS; simpl.
    repeat case_bool_decide; auto with raises. }
  intros s1. apply raises_only_bind.
  { rewrite CONSTRAINED_KEYS_MAPS_eq; simpl.
    repeat case_bool_decide; auto with raises;
      apply raises_only_fmap; simpl;
      repeat (apply raises_only_bind;
              [auto with raises|intros ?]); auto with raises. }
  intros s2. apply raises_only_bind; [|intros; apply raises_only_Ok].
  unfold special_constraints; simpl.
  repeat case_bool_decide;
    unfold _match_authors, _match_document_title, _match_publication_title,
      _match_publisher, _match_keywords, py_eq;
    auto 6 with raises.
Qed.

Lemma raises_only_get_conflict_keys inform context :
  raises_only_MatchError (get_conflict_keys inform context).
Proof.
  unfold get_conflict_keys.
  apply raises_only_bind; [intros e; apply preprocess_raises|]. intros pi.
  apply raises_only_bind; [intros e; apply preprocess_raises|]. intros pc.
  apply raises_only_fmap, raises_only_mapR.
  intros item. apply raises_only_conflicts_of_item.
Qed.

Lemma raises_only_docs_without_conflict c kb :
  raises_only_MatchError (docs_without_conflict c kb).
Proof.
  induction kb as [|doc kb IH]; cbn [docs_without_conflict];
    [apply raises_only_Ok|].
  apply raises_only_bind; [apply raises_only_get_conflict_keys|]. intros ks.
  apply raises_only_bind; [apply IH|]. intros rest. apply raises_only_Ok.
Qed.

(** The documents kept by the list comprehension of
    [find_matching_docs]. *)
Lemma docs_without_conflict_elem c kb docs doc :
  docs_without_conflict c kb = Ok docs ->
  doc ∈ docs <-> doc ∈ kb /\ get_conflict_keys c doc = Ok ∅.
Proof.
  revert docs. induction kb as [|d kb IH]; intros docs;
    cbn [docs_without_conflict].
  - intros [= <-]. split; [by intros ?%elem_of_nil|].
    by intros [?%elem_of_nil _].
  - destruct (get_conflict_keys c d) as [ks|] eqn:Hd; [|done].
    cbn [mbind result_bind].
    destruct (docs_without_conflict c kb) as [rest|]; [|done].
    cbn [mbind result_bind]. intros [= <-]. specialize (IH rest eq_refl).
    case_bool_decide as Hks; subst; rewrite !elem_of_cons, IH.
    + naive_solver.
    + split; [naive_solver|]. intros [[->|?] Hc]; [|done].
      rewrite Hd in Hc. by injection Hc.
Qed.

(** C9. [check_goal_proposal_consistency] relies on exactly one document
    bearing the goal identifier.  On a manager with a coherent cache:
    when the lookup of the identifier (the documents of the knowledge
    base without conflict with [{goal key: identifier}]) yields exactly
    one document, the call does not raise the unpacking error and returns
    whether [get_conflict_keys(constraints, document)] is empty (an
    exception of that comparison, if any, is passed on); when it yields
    no document or more than one, the call raises the unpacking error
    instead of returning a boolean; and when the lookup itself raises (a
    field of a document or the identifier is a string of digits that
    [int] does not convert), the call raises that exception. *)
Theorem check_goal_proposal_consistency_spec m g c :
  cache_ok m ->
  match docs_without_conflict {[ GOAL_KEY := g ]} (_kb m) with
  | Ok docs =>
      (forall doc, doc ∈ docs
         <-> doc ∈ _kb m /\ get_conflict_keys {[ GOAL_KEY := g ]} doc = Ok ∅)
      /\ exists m1,
          find_matching_docs {[ GOAL_KEY := g ]} m = Ok (docs, m1)
          /\ _kb m1 = _kb m
          /\ (forall doc, docs = [doc] ->
                check_goal_proposal_consistency g c m <> Raise UnpackError
                /\ match get_conflict_keys c doc with
                   | Ok ks =>
                       check_goal_proposal_consistency g c m
                       = Ok (bool_decide (ks = ∅), m1)
                   | Raise e =>
                       check_goal_proposal_consistency g c m = Raise e
                   end)
          /\ (length docs <> 1%nat ->
              check_goal_proposal_consistency g c m = Raise UnpackError)
  | Raise e =>
      e = MatchError
      /\ find_matching_docs {[ GOAL_KEY := g ]} m = Raise MatchError
      /\ check_goal_proposal_consistency g c m = Raise MatchError
  end.
Proof.
  intros Hok.
  pose proof (find_matching_docs_computes {[ GOAL_KEY := g ]} m Hok) as Hf.
  pose proof (raises_only_docs_without_conflict {[ GOAL_KEY := g ]} (_kb m))
    as Honly.
  destruct (docs_without_conflict {[ GOAL_KEY := g ]} (_kb m))
    as [docs|e] eqn:Hdocs.
  - split; [intros doc; by eapply docs_without_conflict_elem|].
    destruct Hf as (m1 & Hf & Hok1 & Hkb1).
    exists m1. split; [done|]. split; [done|].
    unfold check_goal_proposal_consistency. unfold_st. rewrite Hf.
    split.
    + intros doc ->.
      pose proof (raises_only_get_conflict_keys c doc) as Hr.
      destruct (get_conflict_keys c doc) as [ks|e]; [done|].
      split; [|done]. intros [= ->]. by specialize (Hr _ eq_refl).
    + intros Hlen. by destruct docs as [|d [|d' docs]].
  - rewrite (Honly e eq_refl) in *. split; [done|]. split; [done|].
    unfold check_goal_proposal_consistency. unfold_st. by rewrite Hf.
Qed.

Lemma choice_elem {A} rho i (l : list A) :
  l <> [] -> exists x, choice rho i l = Ok x /\ x ∈ l.
Proof.
  intros Hl. unfold choice.
  destruct (l !! (rho i `mod` length l)%nat) as [x|] eqn:E.
  - exists x. split; [done|]. by eapply list_elem_of_lookup_2.
  - apply lookup_ge_None in E. destruct l; [done|]. simpl in E.
    pose proof (Nat.mod_upper_bound (rho i) (S (length l))). lia.
Qed.





End Proofs.
End KBManagerProofs.

(** The count theorem on the two sample documents, for a constraint on
    the content type, one on the authors and a wildcard on the
    publisher: both documents are journals, one is by Alice, and one
    matches all constraints. *)
Lemma count_matches_spec_witness :
  exists d m',
    KBManager.count_matches
      (<["authors" := VStr "Alice"]>
         (<["publisher" := VStr OWT]>
            {[ "content_type" := VStr "Journals" ]}))
      (KBManager.init [doc_D1; doc_Bob]) = Ok (d, m')
    /\ KBManager._kb m' = [doc_D1; doc_Bob]
    /\ d !! MA = Some 1%nat
    /\ d !! "content_type" = Some 2%nat
    /\ d !! "authors" = Some 1%nat
    /\ d !! "publisher" = Some 2%nat.
Proof.
  set (c := <["authors" := VStr "Alice"]>
              (<["publisher" := VStr OWT]>
                 ({[ "content_type" := VStr "Journals" ]}
                  : gmap string value))).
  set (m := KBManager.init [doc_D1; doc_Bob]).
  assert (Hno : c !! MA = None) by (vm_compute; reflexivity).
  destruct (KBManagerProofs.count_matches_spec m c
              (KBManagerProofs.cache_ok_init _) Hno) as [Htotal Hspec].
  destruct Htotal as (d & m' & Hrun).
  { exists [doc_D1]. vm_compute. reflexivity. }
  destruct (Hspec d m' Hrun)
    as (_ & Hkb & (docs & _ & _ & Hdocs & _ & _ & HMA) & HOWT & Hkey & _).
  exists d, m'. split; [exact Hrun|]. split; [exact Hkb|].
  split; [|split; [|split]].
  - assert (Hd : KBManager.docs_without_conflict c (KBManager._kb m)
                 = Ok [doc_D1]) by (vm_compute; reflexivity).
    rewrite Hd in Hdocs. injection Hdocs as <-. exact HMA.
  - destruct (Hkey "content_type" (VStr "Journals"))
      as (docs' & _ & _ & Hdocs' & _ & _ & Hk);
      [vm_compute; reflexivity|discriminate|].
    assert (Hd : KBManager.docs_without_conflict
                   {[ "content_type" := VStr "Journals" ]}
                   (KBManager._kb m) = Ok [doc_D1; doc_Bob])
      by (vm_compute; reflexivity).
    rewrite Hd in Hdocs'. injection Hdocs' as <-. exact Hk.
  - destruct (Hkey "authors" (VStr "Alice"))
      as (docs' & _ & _ & Hdocs' & _ & _ & Hk);
      [vm_compute; reflexivity|discriminate|].
    assert (Hd : KBManager.docs_without_conflict
                   {[ "authors" := VStr "Alice" ]}
                   (KBManager._kb m) = Ok [doc_D1])
      by (vm_compute; reflexivity).
    rewrite Hd in Hdocs'. injection Hdocs' as <-. exact Hk.
  - apply (HOWT "publisher"). vm_compute. reflexivity.
Defined.

(** The consistency check on the sample knowledge base: exactly one
    document bears the identifier [D1], and it has no conflict with
    [{content_type: Journals}]. *)
Lemma check_goal_proposal_consistency_spec_witness :
  exists m1,
    KBManager.check_goal_proposal_consistency (VStr "D1")
      {[ "content_type" := VStr "Journals" ]} (KBManager.init sample_kb)
    = Ok (true, m1).
Proof.
  pose proof (KBManagerProofs.check_goal_proposal_consistency_spec
                (KBManager.init sample_kb) (VStr "D1")
                {[ "content_type" := VStr "Journals" ]}
                (KBManagerProofs.cache_ok_init sample_kb)) as Hspec.
  assert (Hone_doc :
    KBManager.docs_without_conflict {[ GOAL_KEY := VStr "D1" ]}
      (KBManager._kb (KBManager.init sample_kb)) = Ok [doc_D1])
    by (vm_compute; reflexivity).
  rewrite Hone_doc in Hspec.
  destruct Hspec as (_ & m1 & _ & _ & Hone & _).
  exists m1.
  destruct (Hone doc_D1 eq_refl) as [_ Hres].
  assert (Hg : get_conflict_keys {[ "content_type" := VStr "Journals" ]}
                 doc_D1 = Ok ∅) by (vm_compute; reflexivity).
  rewrite Hg in Hres. exact Hres.
Defined.
(* ===================================================================== *)
(** * StateTracker.process_user_action *)
(* ===================================================================== *)

Module StateTrackerProofs.
Import StateTracker.
Section Proofs.
Context `{ops : PyStrOps}.

Ltac unfold_st :=
  unfold mbind, St_bind, mret, St_ret, get, put, modify, lift, raise in *.


Lemma process_user_action_returns (a : user_act) (s : t) :
  (exists s', process_user_action a s = Ok (tt, s'))
  <-> match a with
      | USpecial x => x ∈ USR_SPEC_ACTS
      | UStruct inform _ =>
          exists ks, get_conflict_keys inform (_curr_agt_inf s) = Ok ks
      end.
Proof.
  unfold process_user_action. unfold_st.
  destruct a as [a|inform request]; simpl.
  - case_bool_decide as Ha.
    + subst a. split; [intros _; set_solver|by eexists].
    + unfold memb. case_bool_decide; split; try done; try by eexists.
      by intros [? ?].
  - destruct (get_conflict_keys inform (_curr_agt_inf s)) as [ks|e]; simpl.
    + split; [by eexists|]. intros _.
      destruct (emptyb ks); by eexists.
    + split; [by intros [? ?]|by intros [? ?]].
Qed.


End Proofs.
End StateTrackerProofs.




(* ===================================================================== *)
(** * RBAgent.get_action stays within AGT_ACTS *)
(* ===================================================================== *)

Module RBAgentProofs.
Import RBAgent.
Section Proofs.
Context `{ops : PyStrOps}.

Ltac unfold_st :=
  unfold mbind, St_bind, mret, St_ret, get, put, modify, lift, raise in *.

(** The user requests the agent remembers are configured request keys. *)
Definition requests_configured (s : t) : Prop :=
  (forall k, k ∈ _curr_usr_req s -> k ∈ USR_REQ_KEYS)
  /\ (forall k, k ∈ _pending_usr_req s -> k ∈ USR_REQ_KEYS).

Lemma inform_in_AGT_ACTS k : k ∈ AGT_INF_KEYS -> (Inform, k) ∈ AGT_ACTS.
Proof.
  intros Hk. unfold AGT_ACTS. apply elem_of_app. left.
  apply list_elem_of_fmap. by exists k.
Qed.

Lemma request_in_AGT_ACTS k : k ∈ AGT_REQ_KEYS -> (Request, k) ∈ AGT_ACTS.
Proof.
  intros Hk. unfold AGT_ACTS. apply elem_of_app. right.
  apply list_elem_of_fmap. by exists k.
Qed.

Lemma index_of_lookup {A} `{EqDecision A} (x : A) l i :
  index_of x l = Ok i -> l !! i = Some x.
Proof.
  revert i. induction l as [|y l IH]; intros i; simpl; [done|].
  case_bool_decide as Hy.
  - intros [= <-]. by subst.
  - destruct (index_of x l) as [j|]; simpl; [|done].
    intros [= <-]. simpl. by apply IH.
Qed.

Lemma index_of_elem {A} `{EqDecision A} (x : A) l :
  x ∈ l -> exists i, index_of x l = Ok i.
Proof.
  induction l as [|y l IH]; intros Hx; [by inversion Hx|]. simpl.
  case_bool_decide as Hy; [by eexists|].
  apply elem_of_cons in Hx as [->|Hx]; [done|].
  destruct (IH Hx) as [i ->]. by eexists.
Qed.

Lemma choice_filter_elem rho i (P : string -> bool) l :
  List.filter P l <> [] ->
  exists k, choice rho i (List.filter P l) = Ok k /\ k ∈ l.
Proof.
  intros Hne.
  destruct (KBManagerProofs.choice_elem rho i _ Hne) as (k & Hk & Hin).
  exists k. split; [done|].
  apply list_elem_of_In, filter_In in Hin as [Hin _].
  by apply list_elem_of_In.
Qed.

Lemma random_policy_in_AGT_ACTS rho s :
  exists a, random_policy rho s = Ok a /\ a ∈ AGT_ACTS.
Proof.
  unfold random_policy, relevant.
  destruct (memb GOAL_KEY _ && random_lt rho 2 1 3).
  { eexists. split; [done|]. apply inform_in_AGT_ACTS.
    apply (bool_decide_unpack _). by vm_compute. }
  match goal with
  | |- context [negb (bool_decide (?l = [])) && random_lt rho 3 1 2] =>
      destruct (negb (bool_decide (l = [])) && random_lt rho 3 1 2) eqn:E1
  end.
  { apply andb_true_iff in E1 as [E1 _].
    apply negb_true_iff, bool_decide_eq_false in E1.
    destruct (choice_filter_elem rho 4 _ _ E1) as (k & -> & Hk).
    eexists. split; [done|]. by apply request_in_AGT_ACTS. }
  match goal with
  | |- context [if negb (bool_decide (?l = [])) then _ else _] =>
      destruct (negb (bool_decide (l = []))) eqn:E2
  end.
  { apply negb_true_iff, bool_decide_eq_false in E2.
    destruct (choice_filter_elem rho 5 _ _ E2) as (k & -> & Hk).
    eexists. split; [done|]. by apply inform_in_AGT_ACTS. }
  match goal with
  | |- context [negb (bool_decide (?l = [])) && random_lt rho 6 1 2] =>
      destruct (negb (bool_decide (l = [])) && random_lt rho 6 1 2) eqn:E3
  end.
  { apply andb_true_iff in E3 as [E3 _].
    apply negb_true_iff, bool_decide_eq_false in E3.
    destruct (KBManagerProofs.choice_elem rho 7 _ E3) as (k & -> & Hin).
    eexists. split; [done|]. apply inform_in_AGT_ACTS.
    apply list_elem_of_In, filter_In in Hin as [_ Hin].
    unfold memb in Hin. by apply bool_decide_eq_true in Hin. }
  destruct (KBManagerProofs.choice_elem rho 8 AGT_REQ_KEYS) as (k & -> & Hin);
    [done|].
  eexists. split; [done|]. by apply request_in_AGT_ACTS.
Qed.

Lemma requests_configured_reset_informs s :
  requests_configured s -> requests_configured (_reset_agent_informs s).
Proof. intros [Hc Hp]. by split. Qed.

Lemma requests_configured_update inform request s :
  (forall k, k ∈ request -> k ∈ USR_REQ_KEYS) ->
  requests_configured s ->
  requests_configured (update_user inform request s).
Proof.
  intros Hreq [Hc Hp]. split; simpl; intros k Hk;
    apply elem_of_difference in Hk as [Hk _];
    apply elem_of_union in Hk as [Hk|Hk]; auto;
    apply Hreq; by apply elem_of_list_to_set in Hk.
Qed.

Lemma requests_configured_set_action a s :
  requests_configured s -> requests_configured (set_action a s).
Proof.
  intros [Hc Hp]. split; simpl; [done|].
  destruct a as [[] k]; intros k' Hk'; apply Hp; set_solver.
Qed.

Lemma configured_requests inform request k :
  configured_user_act (UStruct inform request) ->
  k ∈ request -> k ∈ USR_REQ_KEYS.
Proof.
  intros [_ Hreq] Hk.
  apply (elem_of_list_to_set (C := gset string)), Hreq.
  by apply elem_of_list_to_set.
Qed.

Lemma process_user_spec a s :
  requests_configured s -> configured_user_act a ->
  match process_user a s with
  | Ok (_, s1) => requests_configured s1
  | Raise e =>
      e = MatchError
      /\ exists inform request,
           a = UStruct inform request
           /\ get_conflict_keys inform (_curr_agt_inf s) = Raise MatchError
  end.
Proof.
  intros Hs Ha. unfold process_user. unfold_st.
  destruct a as [a|inform request]; simpl in *.
  - case_bool_decide; [by apply requests_configured_reset_informs|].
    unfold memb. by rewrite bool_decide_eq_true_2.
  - pose proof (fun k => configured_requests _ _ k Ha) as Hreq.
    pose proof (KBManagerProofs.raises_only_get_conflict_keys inform
                  (_curr_agt_inf s)) as Hr.
    destruct (get_conflict_keys inform (_curr_agt_inf s)) as [ks|e] eqn:E;
      simpl.
    + destruct (emptyb ks); simpl;
        apply requests_configured_update; auto.
      by apply requests_configured_reset_informs.
    + rewrite (Hr e eq_refl) in *. eauto.
Qed.

Lemma choose_action_in_AGT_ACTS rho a s :
  requests_configured s -> configured_user_act a ->
  exists p, choose_action rho a s = Ok p /\ p ∈ AGT_ACTS.
Proof.
  intros [Hc Hp] Ha.
  assert (Hrest :
    exists p,
      (if negb (emptyb (_pending_usr_req s))
       then k ← choice rho 1 (elements (_pending_usr_req s)); Ok (Inform, k)
       else random_policy rho s) = Ok p /\ p ∈ AGT_ACTS).
  { unfold emptyb. case_bool_decide as Hpend; simpl.
    - apply random_policy_in_AGT_ACTS.
    - destruct (KBManagerProofs.choice_elem rho 1
                  (elements (_pending_usr_req s))) as (k & -> & Hk).
      { intros Hnil. by apply elements_empty_inv, leibniz_equiv in Hnil. }
      eexists. split; [done|]. apply inform_in_AGT_ACTS, Hp.
      by apply elem_of_elements in Hk. }
  unfold choose_action. destruct a as [a|inform [|k0 request]]; try done.
  pose proof (fun k => configured_requests _ _ k Ha) as Hreq.
  destruct (KBManagerProofs.choice_elem rho 0 (k0 :: request))
    as (k & -> & Hk); [done|].
  eexists. split; [done|]. by apply inform_in_AGT_ACTS, Hreq.
Qed.

Lemma get_action_spec rho a s :
  requests_configured s -> configured_user_act a ->
  match get_action rho a s with
  | Ok ((i, p), s') =>
      p ∈ AGT_ACTS /\ AGT_ACTS !! i = Some p /\ requests_configured s'
  | Raise e =>
      e = MatchError
      /\ exists inform request,
           a = UStruct inform request
           /\ get_conflict_keys inform (_curr_agt_inf s) = Raise MatchError
  end.
Proof.
  intros Hs Ha. pose proof (process_user_spec a s Hs Ha) as Hp.
  unfold get_action. unfold_st.
  destruct (process_user a s) as [[[] s1]|e]; [|done].
  destruct (choose_action_in_AGT_ACTS rho a s1 Hp Ha) as (p & -> & Hin).
  destruct (index_of_elem p AGT_ACTS Hin) as [i Hi]. rewrite Hi.
  split; [done|]. split; [by apply index_of_lookup|].
  by apply requests_configured_set_action.
Qed.

Lemma record_processed_action_configured a s s' :
  requests_configured s -> record_processed_action a s = Ok s' ->
  requests_configured s'.
Proof.
  intros Hs. unfold record_processed_action.
  destruct a as [x|[] k [v|]]; try done.
  - case_bool_decide; [intros [= <-]; by apply requests_configured_reset_informs|].
    destruct (memb x AGT_SPEC_ACTS); [by intros [= <-]|].
    case_bool_decide; [done|by intros [= <-]].
  - intros [= <-]. destruct Hs. by split.
  - by intros [= <-].
  - by intros [= <-].
Qed.

Lemma rb_reachable_configured s : rb_reachable s -> requests_configured s.
Proof.
  induction 1 as [|s _ IH|s rho a r s' _ IH Ha Hrun|s a s' _ IH Hrec].
  - split; intros k Hk; by apply not_elem_of_empty in Hk.
  - split; intros k Hk; by apply not_elem_of_empty in Hk.
  - pose proof (get_action_spec rho a s IH Ha) as Hspec.
    rewrite Hrun in Hspec. destruct r as [i p]. by destruct Hspec as (_ & _ & ?).
  - by eapply record_processed_action_configured.
Qed.

(** C8. From every state a rule-based agent can be in and for every user
    action built from the configured keys, [get_action] either returns an
    index and an action such that the action is a pair of [AGT_ACTS],
    stands at that index in [AGT_ACTS], and is no special act; or it passes
    on the exception raised by the comparison of the user informs with the
    agent informs, which is the only way it can fail. *)
Theorem get_action_in_AGT_ACTS rho a s :
  rb_reachable s -> configured_user_act a ->
  match get_action rho a s with
  | Ok ((i, p), _) =>
      p ∈ AGT_ACTS
      /\ AGT_ACTS !! i = Some p
      /\ forall x, act_of_pair p <> ASpecial x
  | Raise e =>
      e = MatchError
      /\ exists inform request,
           a = UStruct inform request
           /\ get_conflict_keys inform (_curr_agt_inf s) = Raise MatchError
  end.
Proof.
  intros Hs Ha.
  pose proof (get_action_spec rho a s (rb_reachable_configured s Hs) Ha) as H.
  destruct (get_action rho a s) as [[[i p] s']|e]; [|done].
  destruct H as (Hin & Hidx & _). by repeat split.
Qed.

End Proofs.
End RBAgentProofs.

(** The policy on a first user action that informs keywords and requests
    the authors: the agent informs the authors, action 0 of [AGT_ACTS]. *)
Lemma get_action_in_AGT_ACTS_witness :
  exists s',
    RBAgent.get_action (fun _ => 0%nat)
      (UStruct {[ "keywords" := VStr "deep learning" ]} ["authors"])
      RBAgent.init
    = Ok ((0%nat, (Inform, "authors")), s')
    /\ (Inform, "authors") ∈ AGT_ACTS.
Proof.
  pose proof (RBAgentProofs.get_action_in_AGT_ACTS (fun _ => 0%nat)
                (UStruct {[ "keywords" := VStr "deep learning" ]} ["authors"])
                RBAgent.init rb_reach_init) as H.
  destruct (RBAgent.get_action (fun _ => 0%nat)
              (UStruct {[ "keywords" := VStr "deep learning" ]} ["authors"])
              RBAgent.init) as [[[i p] s']|e] eqn:Hrun;
    [|vm_compute in Hrun; discriminate Hrun].
  assert (Hip : i = 0%nat /\ p = (Inform, "authors"))
    by (vm_compute in Hrun; split; congruence).
  destruct Hip as [-> ->]. exists s'. split; [reflexivity|].
  apply H. split; apply (bool_decide_unpack _); vm_compute; reflexivity.
Defined.

(* ===================================================================== *)
(** * Python floats: the results of non-negative operands *)
(* ===================================================================== *)

Module PyFloatProofs.
Import PyFloat.

Lemma not_negative_round_aux mx ex lx :
  not_negative (binary_round_aux prec emax false mx ex lx).
Proof.
  unfold binary_round_aux.
  destruct (shr_fexp prec emax mx ex lx) as [mrs' e'].
  destruct (shr_fexp prec emax _ e' loc_Exact) as [mrs'' e''].
  destruct (shr_m mrs''); simpl; [done| |done].
  by destruct (e'' <=? emax - prec).
Qed.

Lemma not_negative_round m e :
  not_negative (binary_round prec emax false m e).
Proof.
  unfold binary_round. destruct (shl_align _ _ _).
  apply not_negative_round_aux.
Qed.

Lemma not_negative_of_int n x :
  0 <= n -> of_int n = Ok x -> not_negative x.
Proof.
  intros Hn. unfold of_int, binary_normalize.
  destruct n as [|p|p]; [by intros [= <-]| |lia].
  pose proof (not_negative_round p 0) as H.
  destruct (binary_round prec emax false p 0); by intros [= <-].
Qed.

Lemma not_negative_true_div a b x :
  0 <= a -> 0 < b -> true_div a b = Ok x -> not_negative x.
Proof.
  intros Ha Hb. unfold true_div. case_bool_decide; [lia|].
  destruct b as [|q|q]; try lia. destruct a as [|p|p]; try lia.
  - simpl. by intros [= <-].
  - unfold exact, SFdiv.
    destruct (SFdiv_core_binary _ _ _ _ _ _) as [[mz ez] lz].
    pose proof (not_negative_round_aux mz ez lz) as Hnn. simpl.
    destruct (binary_round_aux prec emax false mz ez lz); by intros [= <-].
Qed.

Lemma not_negative_add x y :
  not_negative x -> not_negative y -> not_negative (add x y).
Proof.
  unfold add.
  destruct x as [sx|sx| |sx mx ex], y as [sy|sy| |sy my ey];
    try destruct sx; try destruct sy; simpl; try done.
  intros _ _. unfold binary_normalize.
  destruct (shl_align mx ex (Z.min ex ey)) as [m1 e1].
  destruct (shl_align my ey (Z.min ex ey)) as [m2 e2]. simpl.
  apply not_negative_round.
Qed.

Lemma not_negative_mul x y :
  not_negative x -> not_negative y -> not_negative (mul x y).
Proof.
  unfold mul.
  destruct x as [sx|sx| |sx mx ex], y as [sy|sy| |sy my ey];
    try destruct sx; try destruct sy; simpl; try done.
  intros _ _. apply not_negative_round_aux.
Qed.

Lemma round_half_even_nonneg m e : 0 <= round_half_even m e.
Proof.
  unfold round_half_even. destruct e as [|p|p].
  - lia.
  - assert (0 < 2 ^ Z.pos p) by (apply Z.pow_pos_nonneg; lia). nia.
  - assert (0 < 2 ^ Z.pos p) by (apply Z.pow_pos_nonneg; lia).
    assert (0 <= Z.pos m `div` 2 ^ Z.pos p) by (apply Z.div_pos; lia).
    destruct (2 * (Z.pos m `mod` 2 ^ Z.pos p) ?= 2 ^ Z.pos p);
      try destruct (Z.even _); lia.
Qed.

Lemma round_not_negative x r :
  not_negative x -> round x = Ok r -> 0 <= r.
Proof.
  destruct x as [s|s| |s m e]; simpl; try done.
  - by intros _ [= <-].
  - destruct s; [done|]. intros _ [= <-]. simpl.
    apply round_half_even_nonneg.
Qed.

End PyFloatProofs.

(* ===================================================================== *)
(** * UserSimulator: what a step changes *)
(* ===================================================================== *)

Module UserSimulatorProofs.
Import UserSimulator.
Section Proofs.
Context `{ops : PyStrOps}.

Ltac unfold_st :=
  unfold mbind, St_bind, mret, St_ret, get, put, modify, lift, raise in *.

(** [c] changes at most the attribute [_action]. *)
Definition action_only {A} (c : St t A) : Prop :=
  forall s a s', c s = Ok (a, s') ->
    s' = s \/ exists act, s' = set_action act s.

Lemma action_only_ret {A} (a : A) : action_only (mret a).
Proof. intros s a' s' [= <- <-]. by left. Qed.

Lemma action_only_bind {A B} (c : St t A) (k : A -> St t B) :
  action_only c -> (forall a, action_only (k a)) -> action_only (c ≫= k).
Proof.
  intros Hc Hk s b s' Hrun. unfold_st.
  destruct (c s) as [[a s1]|] eqn:E; [|done].
  destruct (Hc _ _ _ E) as [->|[act1 ->]]; [by eapply Hk|].
  destruct (Hk _ _ _ _ Hrun) as [->|[act2 ->]]; right; by eexists.
Qed.

Lemma action_only_get_bind {B} (k : t -> St t B) :
  (forall s0, action_only (k s0)) -> action_only (get ≫= k).
Proof. intros Hk s b s' Hrun. unfold_st. simpl in Hrun. by eapply Hk. Qed.

Lemma action_only_lift {A} (r : result A) : action_only (lift r).
Proof. intros s a s' Hrun. unfold_st. destruct r; [|done]. left. congruence. Qed.

Lemma action_only_set_action act : action_only (modify (set_action act)).
Proof. intros s [] s' [= <-]. right. by eexists. Qed.

Lemma action_only_action_inform key v : action_only (action_inform key v).
Proof.
  intros s [] s'. unfold action_inform.
  destruct (_action s) as [[|inform request]|]; [done| |done].
  intros [= <-]. right. by eexists.
Qed.

Lemma action_only_action_request key : action_only (action_request key).
Proof.
  intros s [] s'. unfold action_request.
  destruct (_action s) as [[|inform request]|]; [done| |done].
  intros [= <-]. right. by eexists.
Qed.

Lemma action_only_action_inform_goal key :
  action_only (action_inform_goal key).
Proof.
  unfold action_inform_goal. apply action_only_get_bind. intros s0.
  apply action_only_bind; [apply action_only_lift|].
  intros v. apply action_only_action_inform.
Qed.

Lemma action_only_if {A} (b : bool) (c1 c2 : St t A) :
  action_only c1 -> action_only c2 -> action_only (if b then c1 else c2).
Proof. by destruct b. Qed.

Lemma action_only_pick_random_action rho :
  action_only (_pick_random_action rho).
Proof.
  unfold _pick_random_action. apply action_only_get_bind. intros s0.
  repeat first
    [ apply action_only_if
    | apply action_only_bind; [apply action_only_lift|intros ?]
    | apply action_only_action_request
    | apply action_only_action_inform_goal
    | apply action_only_set_action ].
Qed.

Lemma action_only_mapM {A B} (f : A -> St t B) l :
  (forall x, action_only (f x)) -> action_only (mapM f l).
Proof.
  intros Hf. induction l as [|x l IH]; simpl.
  - apply action_only_ret.
  - apply action_only_bind; [apply Hf|]. intros y.
    apply action_only_bind; [apply IH|]. intros ys. apply action_only_ret.
Qed.

Lemma action_only_response_to_request rho a :
  action_only (_response_to_request rho a).
Proof.
  unfold _response_to_request.
  destruct a as [x|i key [v|]]; try (by intros s a s').
  apply action_only_get_bind. intros s0.
  repeat first
    [ apply action_only_if
    | apply action_only_action_inform_goal
    | apply action_only_action_request
    | apply action_only_action_inform
    | apply action_only_ret
    | apply action_only_bind;
        [first [ apply action_only_lift
               | apply action_only_action_inform
               | apply action_only_mapM; intros ?;
                 apply action_only_action_inform_goal ]
        |intros ?]
    | match goal with
      | |- action_only (match ?x with _ => _ end) => destruct x
      end ].
Qed.

(** The goal key is still to be answered, or the agent has informed it. *)
Definition goal_key_tracked (s : t) : Prop :=
  GOAL_KEY ∈ _not_answ_req s \/ GOAL_KEY ∈ dom (_curr_agt_inf s).

(** The satisfied flag, when set, was computed from the current request
    set. *)
Definition satisfied_fresh (s : t) : Prop :=
  _satisfied s = true -> _not_answ_req s = ∅.

(** The satisfied flag, when set, comes with a proposal for the goal
    key. *)
Definition proposal_known (s : t) : Prop :=
  _satisfied s = true -> is_Some (_curr_agt_inf s !! GOAL_KEY).

(** The attributes no step changes. *)
Definition same_episode (s s' : t) : Prop :=
  patience s' = patience s /\ _goal s' = _goal s /\ _goals s' = _goals s.

Lemma tracked_fresh_known s :
  goal_key_tracked s -> satisfied_fresh s -> proposal_known s.
Proof.
  intros [Hreq|Hagt] Hfresh Hsat.
  - rewrite (Hfresh Hsat) in Hreq. by apply not_elem_of_empty in Hreq.
  - by apply elem_of_dom.
Qed.

Lemma goal_key_in_all_requests g : GOAL_KEY ∈ all_requests g.
Proof.
  unfold all_requests. apply elem_of_list_to_set, elem_of_app. right.
  by apply list_elem_of_singleton.
Qed.

Local Arguments _pick_random_action : simpl never.
Local Arguments action_inform_goal : simpl never.
Local Arguments get_conflict_keys : simpl never.
Local Arguments all_requests : simpl never.
Local Arguments active_constraining : simpl never.

(** What the response phase of a step establishes: the episode data are
    kept, and from a state in which the goal key is tracked and the
    satisfied flag is down, the goal key stays tracked and the flag, if
    set, is fresh. *)
Definition step_post (s s1 : t) : Prop :=
  same_episode s s1
  /\ (goal_key_tracked s -> _satisfied s = false ->
      goal_key_tracked s1 /\ satisfied_fresh s1).

Lemma step_post_action_only {A} (c : St t A) s0 s a s1 :
  action_only c -> step_post s0 s -> c s = Ok (a, s1) -> step_post s0 s1.
Proof.
  intros Hc Hpost Hrun. by destruct (Hc _ _ _ Hrun) as [->|[act ->]].
Qed.

Lemma response_to_inform_post rho a s s1 :
  _response_to_inform rho a s = Ok (tt, s1) -> step_post s s1.
Proof.
  unfold _response_to_inform.
  destruct a as [x|i inf_key [inf_value|]]; try done.
  unfold_st. cbn [negb].
  destruct (get_conflict_keys {[inf_key := inf_value]} (goal_INF (_goal s)))
    as [conflict_keys|]; [|done].
  pose proof (goal_key_in_all_requests (_goal s)) as Hall.
  destruct (emptyb conflict_keys); cbn [negb].
  - (* no conflict *)
    repeat match goal with
           | |- context [if ?b then _ else _] => destruct b
           end; cbn beta iota;
      (apply step_post_action_only; [apply action_only_pick_random_action|]);
      (split; [done|]; intros Htr Hsat; split).
    all: try (intros Hs; simpl in *; unfold emptyb in Hs;
              apply bool_decide_eq_true in Hs; set_solver).
    all: unfold goal_key_tracked in *; simpl; rewrite ?dom_insert_L;
      destruct (decide (inf_key = GOAL_KEY)); destruct Htr; set_solver.
  - (* conflict *)
    destruct (choice rho 1 (elements conflict_keys)) as [key|]; [|done].
    destruct (random_lt rho 2 1 2).
    + apply step_post_action_only; [apply action_only_action_inform_goal|].
      split; [done|]. intros Htr Hsat. split.
      * by left.
      * intros Hs. simpl in Hs. congruence.
    + intros [= <-]. split; [done|]. intros Htr Hsat. split.
      * by left.
      * intros Hs. simpl in Hs. congruence.
Qed.

Local Arguments _response_to_inform : simpl never.
Local Arguments _response_to_request : simpl never.

Lemma respond_post rho a s s1 :
  respond rho a s = Ok (tt, s1) -> step_post s s1.
Proof.
  unfold respond. unfold_st. cbn beta iota.
  pose proof (goal_key_in_all_requests (_goal s)) as Hall.
  destruct a as [x|[] key v].
  - case_bool_decide.
    + apply step_post_action_only; [apply action_only_pick_random_action|].
      split; [done|]. intros Htr Hsat. split.
      * by left.
      * intros Hs. simpl in Hs. congruence.
    + case_bool_decide; [done|]. intros [= <-].
      split; [done|]. intros Htr Hsat. split; [done|].
      intros Hs. simpl in Hs. congruence.
  - intros Hrun.
    apply response_to_inform_post in Hrun as [Hsame Hinv].
    split; [done|]. intros Htr Hsat. by apply Hinv.
  - apply step_post_action_only; [apply action_only_response_to_request|].
    split; [done|]. intros Htr Hsat. split; [done|].
    intros Hs. simpl in Hs. congruence.
Qed.

(** The recheck reads the proposal for the goal key and changes the
    knowledge-base manager only. *)
Lemma check_proposal_inv c s b s' :
  check_proposal c s = Ok (b, s') ->
  is_Some (_curr_agt_inf s !! GOAL_KEY)
  /\ exists m, s' = set_kb_manager m s.
Proof.
  unfold check_proposal, on_kb_manager, getitem. unfold_st.
  cbn beta iota.
  destruct (_curr_agt_inf s !! GOAL_KEY) as [g|]; [|done].
  destruct (KBManager.check_goal_proposal_consistency g c (_kb_manager s))
    as [[b' m]|]; [|done].
  intros [= <- <-]. split; [done|]. by eexists.
Qed.

(** The second phase of a step changes the satisfied flag and the
    knowledge-base manager only, and can only lower the flag. *)
Lemma conclude_inv a s1 done s2 :
  conclude a s1 = Ok (done, s2) ->
  (exists b m, s2 = set_satisfied b (set_kb_manager m s1)
               /\ (b = true -> _satisfied s1 = true))
  /\ (done = false -> _satisfied s2 = false)
  /\ (a = ASpecial NMA -> done = true /\ _satisfied s2 = false).
Proof.
  unfold conclude. unfold_st.
  case_bool_decide as Ha.
  - intros [= <- <-]. split; [|done].
    exists false, (_kb_manager s1). by destruct s1.
  - cbn beta iota. destruct (_satisfied s1) eqn:Hsat.
    + rewrite orb_true_r.
      destruct (check_proposal (goal_INF (_goal s1)) s1) as [[b1 s']|] eqn:E1;
        [|done].
      apply check_proposal_inv in E1 as [Hknown [m ->]].
      destruct b1.
      * destruct (check_proposal _ _) as [[b2 s'']|] eqn:E2; [|done].
        apply check_proposal_inv in E2 as [_ [m' ->]].
        intros [= <- <-]. split; [|split; [done|by intros ->]].
        by exists b2, m'.
      * intros [= <- <-]. split; [|split; [done|by intros ->]].
        by exists false, m.
    + rewrite orb_false_r. intros [= <- <-].
      split; [|split; [done|by intros ->]].
      exists false, (_kb_manager s1). by destruct s1.
Qed.

Lemma mark_sent_inv done s2 s3 :
  mark_sent done s2 = Ok s3 ->
  s3 = s2 \/ exists X, s3 = set_not_sent_inf X s2.
Proof.
  unfold mark_sent. destruct done; [intros [= <-]; by left|].
  destruct (_action s2) as [[x|inform request]|]; [| |done].
  - destruct (memb x USR_SPEC_ACTS); [|done]. intros [= <-]. by left.
  - intros [= <-]. right. by eexists.
Qed.

(** The values a returning [step] returns, and what it keeps. *)
Lemma step_returns rho a s action reward done satisfied s' :
  step rho a s = Ok ((action, reward, done, satisfied), s') ->
  compute_reward done s' = Ok reward
  /\ satisfied = _satisfied s'
  /\ (done = false -> satisfied = false)
  /\ (a = ASpecial NMA -> done = true /\ satisfied = false)
  /\ same_episode s s'
  /\ (goal_key_tracked s -> _satisfied s = false ->
      goal_key_tracked s' /\ proposal_known s').
Proof.
  unfold step. unfold_st.
  destruct (respond rho a s) as [[[] s1]|] eqn:Hr; [|done].
  apply respond_post in Hr as [Hsame Hinv].
  destruct (conclude a s1) as [[done' s2]|] eqn:Hc; [|done].
  apply conclude_inv in Hc as ((b & m & -> & Hb) & Hdone & Hnma).
  cbn beta iota.
  destruct (mark_sent done' _) as [s3|] eqn:Hm; [|done].
  cbn beta iota.
  destruct (compute_reward done' s3) as [r|] eqn:Hrew; [|done].
  cbn beta iota.
  destruct (_action s3); [|done]. intros [= <- <- <- <- <-].
  destruct (mark_sent_inv _ _ _ Hm) as [->|[X ->]];
    (do 5 (split; [done|]); intros Htr Hsat;
     destruct (Hinv Htr Hsat) as [Htr1 Hfresh1];
     split; [done|]; intros Hs; simpl in Hs; subst b;
     by apply (tracked_fresh_known s1); [| |apply Hb]).
Qed.

Lemma init_inv rho goals kb p s :
  init rho goals kb p = Ok s -> goal_key_tracked s /\ _satisfied s = false.
Proof.
  unfold init. destruct (choice rho 0 goals) as [g|]; [|done].
  intros [= <-]. split; [|done]. left. apply goal_key_in_all_requests.
Qed.

Lemma reset_inv rho s s' :
  reset rho s = Ok s' -> goal_key_tracked s' /\ _satisfied s' = false.
Proof.
  unfold reset. destruct (choice rho 0 (_goals s)) as [g|]; [|done].
  intros [= <-]. split; [|done]. left. apply goal_key_in_all_requests.
Qed.

(** The initial action only marks its informs as sent. *)
Lemma get_init_action_inv rho s a s' :
  get_init_action rho s = Ok (a, s') ->
  exists X, s' = set_not_sent_inf X s.
Proof.
  unfold get_init_action. unfold_st. cbn beta iota.
  match goal with
  | |- context [if ?b then _ else _] => destruct b
  end.
  - destruct (choice rho 0 (map_to_list (goal_INF (_goal s)))) as [kv|];
      [|done].
    cbn beta iota.
    match goal with
    | |- context [if ?b then _ else _] => destruct b
    end.
    + destruct (choice rho 1 _); [|done]. intros [= <- <-]. by eexists.
    + intros [= <- <-]. by eexists.
  - cbn beta iota.
    match goal with
    | |- context [if ?b then _ else _] => destruct b
    end.
    + destruct (choice rho 1 _); [|done]. intros [= <- <-]. by eexists.
    + intros [= <- <-]. by eexists.
Qed.

Lemma us_state_inv b s :
  us_state b s ->
  goal_key_tracked s /\ proposal_known s
  /\ (b = false -> _satisfied s = false).
Proof.
  induction 1 as [rho goals kb p s Hinit
                 |rho b s s' _ _ Hreset
                 |rho s a s' _ IH Hinit
                 |rho a s action reward done satisfied s' _ IH Hstep].
  - apply init_inv in Hinit as [Htr Hsat]. split; [done|].
    split; [|done]. intros Hs. congruence.
  - apply reset_inv in Hreset as [Htr Hsat]. split; [done|].
    split; [|done]. intros Hs. congruence.
  - destruct IH as (Htr & Hkn & Hsat).
    apply get_init_action_inv in Hinit as [X ->]. by repeat split.
  - destruct IH as (Htr & _ & Hsat). specialize (Hsat eq_refl).
    apply step_returns in Hstep
      as (_ & -> & Hdone & _ & _ & Hinv).
    destruct (Hinv Htr Hsat) as [Htr' Hkn']. by repeat split.
Qed.

(** C10. In every state of a simulator driven as [run_episode] drives
    it (constructed or reset, asked for its initial action, stepped until
    it reports [done]), the goal key has a proposal in the record of
    agent informs whenever the satisfied flag is set; and in every such
    state that has not reported [done], the state in which [step] runs
    its recheck has the same property, so that the recheck never looks up
    a missing proposal. *)
Theorem satisfied_has_goal_proposal b s :
  us_state b s ->
  proposal_known s
  /\ (b = false ->
      forall rho agent_action s1,
        respond rho agent_action s = Ok (tt, s1) ->
        proposal_known s1
        /\ (_satisfied s1 = true ->
            exists g, getitem (_curr_agt_inf s1) GOAL_KEY = Ok g)).
Proof.
  intros Hs. destruct (us_state_inv b s Hs) as (Htr & Hkn & Hsat).
  split; [done|]. intros -> rho a s1 Hr.
  apply respond_post in Hr as [_ Hinv].
  destruct (Hinv Htr (Hsat eq_refl)) as [Htr1 Hfresh1].
  pose proof (tracked_fresh_known _ Htr1 Hfresh1) as Hkn1.
  split; [done|]. intros Hs1. destruct (Hkn1 Hs1) as [g Hg].
  exists g. unfold getitem. by rewrite Hg.
Qed.

(** The three cases of the reward. *)
Lemma compute_reward_not_done s : compute_reward false s = Ok (-1).
Proof. done. Qed.

Lemma compute_reward_satisfied s :
  _satisfied s = true ->
  compute_reward true s
  = Ok (2 * patience s
        + (Z.of_nat (length (goal_REQ (_goal s)))
           + Z.of_nat (size (goal_INF (_goal s))))).
Proof. unfold compute_reward. by intros ->. Qed.

Lemma compute_reward_unsatisfied s r :
  _satisfied s = false ->
  compute_reward true s = Ok r ->
  exists ra ri x n,
    PyFloat.true_div (Z.of_nat (size (_not_answ_req s)))
      (Z.of_nat (length (goal_REQ (_goal s))) + 1) = Ok ra
    /\ PyFloat.true_div (Z.of_nat (size (_not_sent_inf s)))
         (Z.of_nat (size (goal_INF (_goal s)))) = Ok ri
    /\ PyFloat.mul_int (PyFloat.add ra ri) (patience s) = Ok x
    /\ PyFloat.round x = Ok n
    /\ r = - n
    /\ (0 <= patience s -> r <= 0).
Proof.
  unfold compute_reward. intros ->. cbn [negb].
  destruct (PyFloat.true_div _ (_ + 1)) as [ra|] eqn:Hra; [|done].
  cbn [mbind result_bind].
  match goal with
  | |- context [PyFloat.true_div ?a ?b] =>
      destruct (PyFloat.true_div a b) as [ri|] eqn:Hri; [|done]
  end.
  cbn [mbind result_bind].
  destruct (PyFloat.mul_int (PyFloat.add ra ri) (patience s)) as [x|] eqn:Hx;
    [|done].
  cbn [mbind result_bind].
  destruct (PyFloat.round x) as [n|] eqn:Hn; [|done]. intros [= <-].
  exists ra, ri, x, n. do 5 (split; [done|]). intros Hp.
  assert (Hnn : 0 <= n); [|lia].
  eapply PyFloatProofs.round_not_negative; [|exact Hn].
  unfold PyFloat.mul_int in Hx.
  destruct (PyFloat.of_int (patience s)) as [y|] eqn:Hy; [|done].
  injection Hx as <-.
  apply PyFloatProofs.not_negative_mul.
  - apply PyFloatProofs.not_negative_add.
    + eapply PyFloatProofs.not_negative_true_div; [| |exact Hra]; lia.
    + assert (Z.of_nat (size (goal_INF (_goal s))) <> 0).
      { intros Hz. unfold PyFloat.true_div in Hri.
        by rewrite bool_decide_eq_true_2 in Hri. }
      eapply PyFloatProofs.not_negative_true_div; [| |exact Hri]; lia.
  - by eapply PyFloatProofs.not_negative_of_int.
Qed.

(** C1 (amended). For a simulator of positive patience, every returning
    [step] yields: reward -1 when the turn does not end the episode;
    reward [2 * patience + |goal requests| + |goal informs|] when it ends
    the episode satisfied, and this reward in no other case; and, when it
    ends the episode unsatisfied, reward
    [- round((unanswered / (|goal requests| + 1) + unsent / |goal informs|)
             * patience)],
    the product being rounded, in binary64 arithmetic with ties to even,
    which is at most 0. *)
Theorem step_reward_contract rho agent_action s action reward done
    satisfied s' :
  0 < patience s ->
  step rho agent_action s = Ok ((action, reward, done, satisfied), s') ->
  let success_reward :=
    2 * patience s
    + (Z.of_nat (length (goal_REQ (_goal s)))
       + Z.of_nat (size (goal_INF (_goal s)))) in
  (done = false -> reward = -1)
  /\ (done = true -> satisfied = true -> reward = success_reward)
  /\ (done = true -> satisfied = false ->
      reward <= 0
      /\ exists ra ri x n,
           PyFloat.true_div (Z.of_nat (size (_not_answ_req s')))
             (Z.of_nat (length (goal_REQ (_goal s))) + 1) = Ok ra
           /\ PyFloat.true_div (Z.of_nat (size (_not_sent_inf s')))
                (Z.of_nat (size (goal_INF (_goal s)))) = Ok ri
           /\ PyFloat.mul_int (PyFloat.add ra ri) (patience s) = Ok x
           /\ PyFloat.round x = Ok n
           /\ reward = - n)
  /\ (reward = success_reward <-> done = true /\ satisfied = true).
Proof.
  intros Hp Hstep success_reward.
  apply step_returns in Hstep
    as (Hrew & -> & Hdone & _ & (Hpat & Hgoal & _) & _).
  assert (Hsucc : _satisfied s' = true ->
                  compute_reward true s' = Ok success_reward).
  { intros Hs. rewrite (compute_reward_satisfied _ Hs).
    unfold success_reward. by rewrite Hpat, Hgoal. }
  assert (Hfail : done = true -> _satisfied s' = false ->
      reward <= 0
      /\ exists ra ri x n,
           PyFloat.true_div (Z.of_nat (size (_not_answ_req s')))
             (Z.of_nat (length (goal_REQ (_goal s))) + 1) = Ok ra
           /\ PyFloat.true_div (Z.of_nat (size (_not_sent_inf s')))
                (Z.of_nat (size (goal_INF (_goal s)))) = Ok ri
           /\ PyFloat.mul_int (PyFloat.add ra ri) (patience s) = Ok x
           /\ PyFloat.round x = Ok n
           /\ reward = - n).
  { intros -> Hs.
    destruct (compute_reward_unsatisfied _ _ Hs Hrew)
      as (ra & ri & x & n & Hra & Hri & Hx & Hn & Hr & Hle).
    rewrite Hpat, Hgoal in *. split; [apply Hle; lia|].
    by exists ra, ri, x, n. }
  split; [|split; [|split; [|split]]].
  - intros ->. rewrite compute_reward_not_done in Hrew. congruence.
  - intros -> Hs. rewrite (Hsucc Hs) in Hrew. congruence.
  - done.
  - intros ->. destruct done.
    + destruct (_satisfied s') eqn:Hs; [done|].
      destruct (Hfail eq_refl eq_refl) as [Hle _].
      unfold success_reward in Hle. lia.
    + rewrite compute_reward_not_done in Hrew.
      injection Hrew as Hrew. unfold success_reward in Hrew. lia.
  - intros [-> Hs]. rewrite (Hsucc Hs) in Hrew. congruence.
Qed.

End Proofs.
End UserSimulatorProofs.

(* ===================================================================== *)
(** * UserSimulator: two episodes *)
(* ===================================================================== *)

(** The simulator whose goal has two informs and no request has sent one
    inform when the agent reports that nothing matches: one request of
    one (the goal key) is unanswered and one inform of two is unsent, so
    the weight is 1.5.  [step] returns [-round(1.5 * 15) = -22]; the
    worded formula [-round(1.5) * 15] is -30. *)
Lemma unsatisfied_reward_counterexample :
  sim_step goal_Bob_Journals (ASpecial NMA) = Ok (UStruct ∅ [], -22, true, false)
  /\ sim_specified_reward goal_Bob_Journals (ASpecial NMA) = Ok (-30).
Proof. split; vm_compute; reflexivity. Qed.

(** The simulator whose goal has the inform [authors: Bob] and no
    request is satisfied by the proposal of the document [D2]: the step
    ends the episode with reward [2 * 15 + 0 + 1]. *)
Lemma step_reward_contract_witness :
  exists s action reward s',
    sim_started goal_Bob = Ok s
    /\ UserSimulator.step rho0 (ATuple Inform "doi" (Some (VStr "D2"))) s
       = Ok ((action, reward, true, true), s')
    /\ reward = 31.
Proof.
  destruct (sim_started goal_Bob) as [s|] eqn:Hs;
    [|vm_compute in Hs; discriminate Hs].
  assert (Hpg : UserSimulator.patience s = 15
                /\ UserSimulator._goal s = goal_Bob).
  { vm_compute in Hs. injection Hs as <-. split; vm_compute; reflexivity. }
  destruct Hpg as [Hp Hg].
  destruct (UserSimulator.step rho0 (ATuple Inform "doi" (Some (VStr "D2"))) s)
    as [[[[[action reward] done] satisfied] s']|] eqn:Hstep.
  - assert (Hds : done = true /\ satisfied = true).
    { clear Hp Hg. vm_compute in Hs. injection Hs as <-.
      vm_compute in Hstep. injection Hstep as _ _ <- <- _. by split. }
    destruct Hds as [-> ->].
    exists s, action, reward, s'. split; [reflexivity|].
    split; [exact Hstep|].
    assert (Hpos : 0 < UserSimulator.patience s) by (rewrite Hp; lia).
    destruct (UserSimulatorProofs.step_reward_contract _ _ _ _ _ _ _ _
                Hpos Hstep) as (_ & Hsucc & _).
    rewrite (Hsucc eq_refl eq_refl), Hp, Hg. vm_compute. reflexivity.
  - exfalso. clear Hp Hg. vm_compute in Hs. injection Hs as <-.
    vm_compute in Hstep. discriminate Hstep.
Defined.

(** In that episode the simulator ends satisfied, and the proposal for
    the goal key is on record. *)
Lemma satisfied_has_goal_proposal_witness :
  exists s',
    us_state true s'
    /\ UserSimulator._satisfied s' = true
    /\ is_Some (UserSimulator._curr_agt_inf s' !! GOAL_KEY).
Proof.
  destruct (UserSimulator.init rho0 [goal_Bob] [doc_Bob] 15)
    as [s0|] eqn:H0; [|vm_compute in H0; discriminate H0].
  pose proof (us_state_init _ _ _ _ _ H0) as Hst0.
  destruct (UserSimulator.get_init_action rho0 s0) as [[a0 s1]|] eqn:H1.
  2: { exfalso. clear Hst0. vm_compute in H0. injection H0 as <-.
       vm_compute in H1. discriminate H1. }
  pose proof (us_state_init_action _ _ _ _ Hst0 H1) as Hst1.
  destruct (UserSimulator.step rho0 (ATuple Inform "doi" (Some (VStr "D2"))) s1)
    as [[[[[action reward] done] satisfied] s']|] eqn:Hstep.
  2: { exfalso. clear Hst0 Hst1. vm_compute in H0. injection H0 as <-.
       vm_compute in H1. injection H1 as _ <-.
       vm_compute in Hstep. discriminate Hstep. }
  assert (Hds : done = true /\ UserSimulator._satisfied s' = true).
  { clear Hst0 Hst1. vm_compute in H0. injection H0 as <-.
    vm_compute in H1. injection H1 as _ <-.
    vm_compute in Hstep. injection Hstep as _ _ <- _ <-.
    split; vm_compute; reflexivity. }
  destruct Hds as [-> Hsat].
  pose proof (us_state_step _ _ _ _ _ _ _ _ Hst1 Hstep) as Hst'.
  exists s'. split; [exact Hst'|]. split; [exact Hsat|].
  destruct (UserSimulatorProofs.satisfied_has_goal_proposal _ _ Hst')
    as [Hkn _].
  exact (Hkn Hsat).
Defined.

(* ===================================================================== *)
(** * RLAgent.train: shuffling and batching *)
(* ===================================================================== *)

Lemma swap_items_length {A} i j (l : list A) :
  length (swap_items i j l) = length l.
Proof.
  unfold swap_items. destruct (l !! i), (l !! j); try done.
  by rewrite !length_insert.
Qed.

Lemma swap_items_lookup {A} i j (l : list A) k :
  (i < length l)%nat -> (j < length l)%nat ->
  swap_items i j l !! k
  = l !! (if decide (k = i) then j else if decide (k = j) then i else k).
Proof.
  intros Hi Hj. unfold swap_items.
  destruct (lookup_lt_is_Some_2 l i Hi) as [x Hx].
  destruct (lookup_lt_is_Some_2 l j Hj) as [y Hy].
  rewrite Hx, Hy.
  destruct (decide (k = j)) as [->|Hkj].
  - rewrite list_lookup_insert_eq by (rewrite length_insert; lia).
    destruct (decide (j = i)) as [->|]; [congruence|done].
  - rewrite list_lookup_insert_ne by done.
    destruct (decide (k = i)) as [->|Hki].
    + by rewrite list_lookup_insert_eq.
    + by rewrite list_lookup_insert_ne.
Qed.

Lemma swap_items_Permutation {A} i j (l : list A) :
  swap_items i j l ≡ₚ l.
Proof.
  destruct (decide (i < length l)%nat) as [Hi|Hi]; cycle 1.
  { unfold swap_items. by rewrite (lookup_ge_None_2 l i) by lia. }
  destruct (decide (j < length l)%nat) as [Hj|Hj]; cycle 1.
  { unfold swap_items. rewrite (lookup_ge_None_2 l j) by lia.
    by destruct (l !! i). }
  apply Permutation_inj. split; [apply swap_items_length|].
  exists (fun k => if decide (k = i) then j
                   else if decide (k = j) then i else k).
  split.
  - intros k1 k2. repeat case_decide; congruence.
  - intros k. by apply swap_items_lookup.
Qed.

Lemma shuffle_Permutation {A} rho (l : list A) : shuffle rho l ≡ₚ l.
Proof.
  unfold shuffle. generalize (rev (seq 1 (length l - 1))). intros idx.
  revert l. induction idx as [|i idx IH]; intros l; [done|]. simpl.
  rewrite IH. apply swap_items_Permutation.
Qed.

Lemma concat_slices {A} (size n : nat) (l : list A) :
  concat (map (fun i => take size (drop i l))
            (map (fun k => k * size)%nat (seq 0 n)))
  = take (n * size) l.
Proof.
  induction n as [|n IH]; [done|].
  rewrite seq_S, !map_app, concat_app, IH. simpl.
  rewrite app_nil_r, take_take_drop. f_equal. lia.
Qed.

Lemma range_step_covers (n size : nat) :
  (0 < size)%nat -> (n <= (n + size - 1) `div` size * size)%nat.
Proof.
  intros Hs.
  pose proof (Nat.div_mod_eq (n + size - 1) size) as Hdm.
  pose proof (Nat.mod_upper_bound (n + size - 1) size). nia.
Qed.

(** For a positive batch size the batches, in order, make up the list;
    none is empty or longer than the batch size, and all but the last
    have the batch size. *)
Lemma batches_of_partition {A} (size : Z) (l : list A) :
  0 < size ->
  exists batches,
    batches_of size l = Ok batches
    /\ concat batches = l
    /\ Forall (fun b => (0 < length b <= Z.to_nat size)%nat) batches
    /\ (forall k b, batches !! k = Some b -> (S k < length batches)%nat ->
          length b = Z.to_nat size).
Proof.
  intros Hsize. unfold batches_of.
  rewrite bool_decide_eq_false_2 by lia.
  rewrite bool_decide_eq_false_2 by lia.
  set (sz := Z.to_nat size). assert (Hsz : (0 < sz)%nat) by lia.
  eexists. split; [done|].
  unfold range_step.
  set (n := ((length l + sz - 1) `div` sz)%nat).
  assert (Hcover : (length l <= n * sz)%nat) by by apply range_step_covers.
  assert (Htight : forall k, (k < n)%nat -> (k * sz < length l)%nat).
  { intros k Hk. unfold n in Hk.
    pose proof (Nat.div_mod_eq (length l + sz - 1) sz) as Hdm.
    pose proof (Nat.mod_upper_bound (length l + sz - 1) sz). nia. }
  split; [|split].
  - rewrite concat_slices. by apply take_ge.
  - apply Forall_forall. intros b Hb.
    apply list_elem_of_fmap in Hb as (i & -> & Hi).
    apply list_elem_of_fmap in Hi as (k & -> & Hk).
    apply elem_of_seq in Hk. rewrite length_take, length_drop.
    specialize (Htight k). lia.
  - intros k b Hb Hk. rewrite !length_map, length_seq in Hk.
    rewrite !list_lookup_fmap in Hb.
    rewrite lookup_seq_lt in Hb by lia. simpl in Hb.
    injection Hb as <-. rewrite length_take, length_drop.
    specialize (Htight (S k)). lia.
Qed.

(* ===================================================================== *)
(** * RLAgent.train: targets, frozen target network, epsilon *)
(* ===================================================================== *)

Module RLAgentProofs.
Import RLAgent.
Section Proofs.
Context {state : Type} `{B : Backend state}.
Implicit Types (a : t (B := B)) (q : list (list num)).

Lemma nth_item_Ok {A} (l : list A) i x :
  nth_item l i = Ok x <-> l !! i = Some x.
Proof. unfold nth_item. destruct (l !! i); naive_solver. Qed.

Lemma set_entry_spec q i act x q' :
  set_entry q i act x = Ok q' ->
  exists row, q !! i = Some row /\ (act < length row)%nat
              /\ q' = <[i := <[act := x]> row]> q.
Proof.
  unfold set_entry. destruct (nth_item q i) as [row|] eqn:Hrow; [|done].
  simpl. case_bool_decide; [|done]. intros [= <-].
  exists row. by apply nth_item_Ok in Hrow.
Qed.

(** The loop over a batch rewrites row [i + k] for the [k]-th experience
    and no other row; in that row it rewrites the entry of the taken
    action and no other entry. *)
Lemma q_learning_spec a tq bq batch : forall i q q',
  q_learning a tq bq i batch q = Ok q' ->
  length q' = length q
  /\ (forall k, (k < i)%nat -> q' !! k = q !! k)
  /\ (forall k, (i + length batch <= k)%nat -> q' !! k = q !! k)
  /\ (forall k s act r s' d,
        batch !! k = Some (s, act, r, s', d) ->
        exists row v,
          q !! (i + k)%nat = Some row
          /\ next_value a tq bq (i + k) = Ok v
          /\ (act < length row)%nat
          /\ q' !! (i + k)%nat
             = Some (<[act := target_value a r v d]> row)).
Proof.
  induction batch as [|[[[[s0 act0] r0] s0'] d0] batch IH]; intros i q q'.
  - intros [= <-]. repeat split; try done;
      intros k ? ? ? ? ? Hk; by rewrite lookup_nil in Hk.
  - cbn [q_learning].
    destruct (next_value a tq bq i) as [v|] eqn:Hv; [|done]. simpl.
    destruct (set_entry q i act0 (target_value a r0 v d0)) as [q1|] eqn:Hq1;
      [|done].
    simpl. intros Hrest.
    apply set_entry_spec in Hq1 as (row & Hrow & Hact & ->).
    destruct (IH _ _ _ Hrest) as (Hlen & Hbefore & Hafter & Hrows).
    rewrite length_insert in Hlen.
    split; [done|]. split; [|split].
    + intros k Hk. rewrite Hbefore by lia.
      by rewrite list_lookup_insert_ne by lia.
    + intros k Hk. simpl in Hk. rewrite Hafter by lia.
      by rewrite list_lookup_insert_ne by lia.
    + intros [|k] s act r s' d Hk.
      * injection Hk as -> -> -> -> ->. rewrite Nat.add_0_r.
        exists row, v. do 3 (split; [done|]).
        rewrite Hbefore by lia.
        apply list_lookup_insert_eq. by eapply lookup_lt_Some.
      * simpl in Hk.
        destruct (Hrows _ _ _ _ _ _ Hk) as (row' & v' & Hr' & Hv' & Ha' & Hq').
        replace (i + S k)%nat with (S i + k)%nat by lia.
        exists row', v'. split; [|done].
        by rewrite list_lookup_insert_ne in Hr' by lia.
Qed.

(** The value of the next state: the maximum of the target row in the
    vanilla mode, the target row at the action the behavior row prefers
    otherwise. *)
Lemma next_value_spec a tar beh batch i v :
  next_value a (predict tar (next_states_of batch))
    (if vanilla a then None else Some (predict beh (next_states_of batch)))
    i = Ok v ->
  exists tar_row,
    predict tar (next_states_of batch) !! i = Some tar_row
    /\ if vanilla a then amax tar_row = Ok v
       else exists beh_row j,
              predict beh (next_states_of batch) !! i = Some beh_row
              /\ argmax beh_row = Ok j /\ tar_row !! j = Some v.
Proof.
  unfold next_value.
  destruct (nth_item (predict tar _) i) as [tar_row|] eqn:Ht; [|done].
  apply nth_item_Ok in Ht. simpl. intros Hv. exists tar_row.
  split; [done|]. destruct (vanilla a); [done|].
  destruct (nth_item (predict beh _) i) as [beh_row|] eqn:Hb; [|done].
  apply nth_item_Ok in Hb. simpl in Hv.
  destruct (argmax beh_row) as [j|] eqn:Hj; [|done]. simpl in Hv.
  apply nth_item_Ok in Hv. by exists beh_row, j.
Qed.

(** The targets of one batch: the rows the behavior model predicts for
    the states of the batch, in which the entry of the taken action of
    each experience is overwritten. *)
Lemma batch_targets_spec a tar beh batch q :
  batch_targets a tar beh batch = Ok q ->
  length q = length (predict beh (states_of batch))
  /\ (forall i, (length batch <= i)%nat ->
        q !! i = predict beh (states_of batch) !! i)
  /\ forall i s act r s' d,
       batch !! i = Some (s, act, r, s', d) ->
       exists row tar_row v,
         predict beh (states_of batch) !! i = Some row
         /\ predict tar (next_states_of batch) !! i = Some tar_row
         /\ (if vanilla a then amax tar_row = Ok v
             else exists beh_row j,
                    predict beh (next_states_of batch) !! i = Some beh_row
                    /\ argmax beh_row = Ok j
                    /\ tar_row !! j = Some v)
         /\ (act < length row)%nat
         /\ q !! i
            = Some (<[act := add (of_int r)
                              (mul (gamma a) (mul v (of_bool (negb d))))]>
                      row).
Proof.
  intros Hq. unfold batch_targets in Hq.
  apply q_learning_spec in Hq as (Hlen & _ & Hafter & Hrows).
  split; [done|]. split; [intros i Hi; by apply Hafter|].
  intros i s act r s' d Hi.
  destruct (Hrows _ _ _ _ _ _ Hi) as (row & v & Hrow & Hv & Hact & Hq').
  simpl in *.
  destruct (next_value_spec _ _ _ _ _ _ Hv) as (tar_row & Htar & Hval).
  by exists row, tar_row, v.
Qed.

(** The loop over the batches: the weights the behavior model goes
    through, one [fit] per batch, the targets of each batch being computed
    with the same target weights [tar]. *)
Lemma train_batches_trace a tar batches : forall beh beh',
  train_batches a tar beh batches = Ok beh' ->
  exists ws,
    length ws = S (length batches)
    /\ ws !! 0%nat = Some beh
    /\ ws !! length batches = Some beh'
    /\ forall k batch w,
         batches !! k = Some batch -> ws !! k = Some w ->
         exists q, batch_targets a tar w batch = Ok q
                   /\ ws !! S k = Some (fit w (states_of batch) q).
Proof.
  induction batches as [|batch batches IH]; intros beh beh';
    cbn [train_batches].
  - intros [= <-]. exists [beh]. do 3 (split; [done|]).
    intros k batch w Hk. by rewrite lookup_nil in Hk.
  - destruct (batch_targets a tar beh batch) as [q|] eqn:Hq; [|done].
    cbn [mbind result_bind]. intros Hrest.
    destruct (IH _ _ Hrest) as (ws & Hlen & H0 & Hlast & Hstep).
    exists (beh :: ws). split; [simpl; lia|]. split; [done|].
    split; [done|].
    intros [|k] batch0 w Hk Hw; simpl in Hk, Hw.
    + injection Hk as <-. injection Hw as <-. exists q. split; [done|].
      exact H0.
    + destruct (Hstep _ _ _ Hk Hw) as (q0 & Hq0 & Hnext). by exists q0.
Qed.

(** C5 (amended). A returning [train] shuffles the experience set and
    cuts it into batches of the configured size (for a positive size: in
    order, none empty, all but the last full); it then fits the behavior
    model once per batch, in order, starting from the weights it had at
    the start of the call and ending with the weights of the returned
    agent; and it multiplies epsilon by the decay factor once, changing no
    other parameter.  The targets of the fit of a batch are the rows the
    current behavior weights predict for the states of the batch, except
    that for each experience the entry of the taken action is
    [reward + gamma * (v * [not terminal])], where [v] is read from the row
    the target model predicts for the next state with the weights the
    behavior model had at the start of the call (the frozen clone): its
    maximum when the [vanilla] flag is set (the default), and its value at
    the action the current behavior weights prefer for the next state
    (Double DQN) when it is not. *)
Theorem train_spec rho (experience_set : list experience) a a' :
  train rho experience_set a = Ok a' ->
  exists (batches : list (list experience)) (ws : list weights),
    batches_of (batch_size a) (shuffle rho experience_set) = Ok batches
    /\ shuffle rho experience_set ≡ₚ experience_set
    /\ (0 < batch_size a ->
        concat batches = shuffle rho experience_set
        /\ Forall (fun b => (0 < length b <= Z.to_nat (batch_size a))%nat)
             batches
        /\ forall k b, batches !! k = Some b ->
             (S k < length batches)%nat ->
             length b = Z.to_nat (batch_size a))
    /\ length ws = S (length batches)
    /\ ws !! 0%nat = Some (_beh_model a)
    /\ ws !! length batches = Some (_beh_model a')
    /\ (forall k batch beh,
          batches !! k = Some batch -> ws !! k = Some beh ->
          exists q,
            ws !! S k = Some (fit beh (states_of batch) q)
            /\ length q = length (predict beh (states_of batch))
            /\ (forall i, (length batch <= i)%nat ->
                  q !! i = predict beh (states_of batch) !! i)
            /\ forall i s act r s' d,
                 batch !! i = Some (s, act, r, s', d) ->
                 exists row tar_row v,
                   predict beh (states_of batch) !! i = Some row
                   /\ predict (_beh_model a) (next_states_of batch) !! i
                      = Some tar_row
                   /\ (if vanilla a then amax tar_row = Ok v
                       else exists beh_row j,
                              predict beh (next_states_of batch) !! i
                              = Some beh_row
                              /\ argmax beh_row = Ok j
                              /\ tar_row !! j = Some v)
                   /\ (act < length row)%nat
                   /\ q !! i
                      = Some (<[act := add (of_int r)
                                        (mul (gamma a)
                                           (mul v (of_bool (negb d))))]>
                                row))
    /\ epsilon a' = mul (epsilon a) (epsilon_decay a)
    /\ gamma a' = gamma a /\ epsilon_decay a' = epsilon_decay a
    /\ vanilla a' = vanilla a /\ batch_size a' = batch_size a.
Proof.
  intros Htrain. unfold train in Htrain.
  destruct (batches_of (batch_size a) (shuffle rho experience_set))
    as [batches|] eqn:Hb; [|done].
  cbn [mbind result_bind] in Htrain.
  destruct (train_batches a (_beh_model a) (_beh_model a) batches)
    as [beh'|] eqn:Hloop; [|done].
  injection Htrain as <-. cbn [_beh_model epsilon gamma epsilon_decay
                               vanilla batch_size].
  destruct (train_batches_trace _ _ _ _ _ Hloop)
    as (ws & Hlen & H0 & Hlast & Hstep).
  exists batches, ws. split; [done|]. split; [apply shuffle_Permutation|].
  split.
  { intros Hpos.
    destruct (batches_of_partition (batch_size a)
                (shuffle rho experience_set) Hpos)
      as (batches' & Hb' & Hcat & Hall & Hfull).
    rewrite Hb in Hb'. injection Hb' as <-. done. }
  do 3 (split; [done|]). split; [|done].
  intros k batch beh Hk Hw.
  destruct (Hstep _ _ _ Hk Hw) as (q & Hq & Hnext).
  exists q. split; [done|]. by apply batch_targets_spec.
Qed.

End Proofs.
End RLAgentProofs.

(** With the default [vanilla=True] the target is not the Double-DQN
    target.  The agent trains on two experiences in batches of one.  After
    the first batch the behavior network predicts [[1, 2.5, 0, ...]] while
    the target network still predicts [[1, 0, 0, ...]].  For the second
    experience (action 0, reward 0, not terminal) the code takes the
    maximum 1 of the target row and writes the target [0 + 0.5 * 1 = 0.5];
    Double DQN takes the target row at the action the behavior row
    prefers (action 1, value 0) and gives [0 + 0.5 * 0 = 0]. *)
Lemma train_vanilla_counterexample :
  let tar := flt 1 1 :: replicate 20 (flt 0 1) in
  let beh := flt 1 1 :: flt 5 2 :: replicate 19 (flt 0 1) in
  RLAgent.train_batches agent_default tar tar [[exp_1]] = Ok beh
  /\ RLAgent.batch_targets agent_default tar beh [exp_2]
     = Ok [flt 1 2 :: flt 5 2 :: replicate 19 (flt 0 1)]
  /\ RLAgent.double_dqn_target agent_default tar beh 0 false
     = Ok (flt 0 1)
  /\ (RLAgent._beh_model <$> RLAgent.train rho0 [exp_2; exp_1] agent_default)
     = Ok (flt 1 2 :: flt 5 2 :: replicate 19 (flt 0 1)).
Proof. repeat split; vm_compute; reflexivity. Qed.

(** The training theorem on that call. *)
Lemma train_spec_witness :
  RLAgent.train rho0 [exp_2; exp_1] agent_default = Ok agent_trained
  /\ RLAgent.epsilon agent_trained
     = PyFloat.mul (RLAgent.epsilon agent_default)
         (RLAgent.epsilon_decay agent_default).
Proof.
  assert (Htrain : RLAgent.train rho0 [exp_2; exp_1] agent_default
                   = Ok agent_trained) by reflexivity.
  split; [exact Htrain|].
  destruct (RLAgentProofs.train_spec _ _ _ _ Htrain)
    as (batches & ws & _ & _ & _ & _ & _ & _ & _ & Heps & _).
  exact Heps.
Defined.
